(** * The chat orchestration of the Foundry agent web app

    A shallow embedding of the chat handlers of
    [src/spa_foundry_agent_webapp/src/App.js]: the React state of the
    [App] component is a record, every [useState] setter is a function on
    that record, and an [async] handler is split at its [await] into the
    part that runs when the user acts and the part that runs when the
    request settles. *)

From stdpp Require Import base option list gmap strings pretty.

Set Default Proof Using "Type".

(** ** JavaScript strings and truthiness *)

(** A JavaScript string is a sequence of UTF-16 code units. *)
Abbreviation jsstring := (list N).

(** An ASCII literal as a JavaScript string. *)
Fixpoint js (s : string) : jsstring :=
  match s with
  | EmptyString => []
  | String a r => Ascii.N_of_ascii a :: js r
  end.

(** [!!x] for a value that is [null] or a string. *)
Definition truthy (x : option jsstring) : bool :=
  match x with
  | Some (_ :: _) => true
  | _ => false
  end.

(** [x || null] *)
Definition or_null (x : option jsstring) : option jsstring :=
  if truthy x then x else None.

(** [x || d] for a string default [d] *)
Definition or_else (x : option jsstring) (d : jsstring) : jsstring :=
  match x with
  | Some (c :: r) => c :: r
  | _ => d
  end.

(** WhiteSpace and LineTerminator code units, the ones [trim] strips. *)
Definition is_js_space (c : N) : bool :=
  bool_decide (c ∈ [0x09; 0x0A; 0x0B; 0x0C; 0x0D; 0x20; 0xA0; 0x1680;
                    0x2028; 0x2029; 0x202F; 0x205F; 0x3000; 0xFEFF]%N)
  || (0x2000 <=? c)%N && (c <=? 0x200A)%N.

Fixpoint trimStart (s : jsstring) : jsstring :=
  match s with
  | c :: r => if is_js_space c then trimStart r else s
  | [] => []
  end.

Definition trimEnd (s : jsstring) : jsstring :=
  reverse (trimStart (reverse s)).

(** [String.prototype.trim] *)
Definition trim (s : jsstring) : jsstring := trimEnd (trimStart s).

(** An [Error] object; [String(e)] is [Error.prototype.toString]. *)
Record JsError := MkJsError { err_name : jsstring; err_message : jsstring }.

Definition new_Error (m : jsstring) : JsError := MkJsError (js "Error") m.

Definition String_of_error (e : JsError) : jsstring :=
  match err_name e, err_message e with
  | [], m => m
  | n, [] => n
  | n, m => n ++ js ": " ++ m
  end.

(** [e?.message || String(e)] *)
Definition error_text (e : JsError) : jsstring :=
  or_else (Some (err_message e)) (String_of_error e).

(** ** Data model *)

Inductive Role := user | assistant.

Record Message := MkMessage { role : Role; text : jsstring }.

(** [arguments] is only ever rendered; it is kept as its JSON text. *)
Record ApprovalRequest := MkApprovalRequest {
  id : jsstring;
  server_label : jsstring;
  tool_name : jsstring;
  arguments : jsstring;
}.

(** The body of a successful [/chat] response. A missing field is [None];
    a body that is a number, a string or an array has none of the fields
    and reads like the empty record. The body [null] is a case of its own,
    see [FetchOkNull]. *)
Record ChatResponse := MkChatResponse {
  status : option jsstring;
  consent_link : option jsstring;
  response_id : option jsstring;
  approval_requests : option (list ApprovalRequest);
  output_text : option jsstring;
}.

Record ApprovalEntry := MkApprovalEntry {
  approval_request_id : jsstring;
  approve : bool;
}.

(** The body posted to [/chat]. [message], [action] and [approvals] are
    [None] when the handler leaves the field out; [previous_response_id]
    is [None] when it is sent as [null]. *)
Record ChatRequest := MkChatRequest {
  agent_name : jsstring;
  message : option jsstring;
  previous_response_id : option jsstring;
  action : option jsstring;
  approvals : option (list ApprovalEntry);
}.

(** The [useState] cells of [App] that the chat handlers read or write.
    [tokenClaims], [showToken], [backendLoading] and [backendResult] are
    left out: no chat handler reads them and none of them is part of the
    conversation. *)
Record AppState := MkAppState {
  error : option jsstring;
  needsConsent : bool;
  accessToken : option jsstring;
  agentName : jsstring;
  chatInput : jsstring;
  chatLoading : bool;
  messages : list Message;
  previousResponseId : option jsstring;
  pendingApprovals : option (list ApprovalRequest);
  approvalDecisions : gmap jsstring bool;
  pendingResponseIdForApproval : option jsstring;
  oauthConsentLink : option jsstring;
  pendingResponseIdForOauth : option jsstring;
}.

Definition DEFAULT_AGENT_NAME : jsstring := js "MultiToolAgentV1".

(** The state of the first render. *)
Definition initial : AppState := {|
  error := None;
  needsConsent := false;
  accessToken := None;
  agentName := DEFAULT_AGENT_NAME;
  chatInput := [];
  chatLoading := false;
  messages := [];
  previousResponseId := None;
  pendingApprovals := None;
  approvalDecisions := ∅;
  pendingResponseIdForApproval := None;
  oauthConsentLink := None;
  pendingResponseIdForOauth := None;
|}.

(** *** Setters *)

Definition setError v (s : AppState) : AppState :=
  MkAppState v (needsConsent s) (accessToken s) (agentName s) (chatInput s)
    (chatLoading s) (messages s) (previousResponseId s) (pendingApprovals s)
    (approvalDecisions s) (pendingResponseIdForApproval s)
    (oauthConsentLink s) (pendingResponseIdForOauth s).

Definition setNeedsConsent v (s : AppState) : AppState :=
  MkAppState (error s) v (accessToken s) (agentName s) (chatInput s)
    (chatLoading s) (messages s) (previousResponseId s) (pendingApprovals s)
    (approvalDecisions s) (pendingResponseIdForApproval s)
    (oauthConsentLink s) (pendingResponseIdForOauth s).

Definition setAccessToken v (s : AppState) : AppState :=
  MkAppState (error s) (needsConsent s) v (agentName s) (chatInput s)
    (chatLoading s) (messages s) (previousResponseId s) (pendingApprovals s)
    (approvalDecisions s) (pendingResponseIdForApproval s)
    (oauthConsentLink s) (pendingResponseIdForOauth s).

Definition setAgentName v (s : AppState) : AppState :=
  MkAppState (error s) (needsConsent s) (accessToken s) v (chatInput s)
    (chatLoading s) (messages s) (previousResponseId s) (pendingApprovals s)
    (approvalDecisions s) (pendingResponseIdForApproval s)
    (oauthConsentLink s) (pendingResponseIdForOauth s).

Definition setChatInput v (s : AppState) : AppState :=
  MkAppState (error s) (needsConsent s) (accessToken s) (agentName s) v
    (chatLoading s) (messages s) (previousResponseId s) (pendingApprovals s)
    (approvalDecisions s) (pendingResponseIdForApproval s)
    (oauthConsentLink s) (pendingResponseIdForOauth s).

Definition setChatLoading v (s : AppState) : AppState :=
  MkAppState (error s) (needsConsent s) (accessToken s) (agentName s)
    (chatInput s) v (messages s) (previousResponseId s) (pendingApprovals s)
    (approvalDecisions s) (pendingResponseIdForApproval s)
    (oauthConsentLink s) (pendingResponseIdForOauth s).

(** [setMessages] takes a value or an updater; a value is the constant
    updater. *)
Definition setMessages (f : list Message → list Message) (s : AppState)
  : AppState :=
  MkAppState (error s) (needsConsent s) (accessToken s) (agentName s)
    (chatInput s) (chatLoading s) (f (messages s)) (previousResponseId s)
    (pendingApprovals s) (approvalDecisions s)
    (pendingResponseIdForApproval s) (oauthConsentLink s)
    (pendingResponseIdForOauth s).

Definition setPreviousResponseId v (s : AppState) : AppState :=
  MkAppState (error s) (needsConsent s) (accessToken s) (agentName s)
    (chatInput s) (chatLoading s) (messages s) v (pendingApprovals s)
    (approvalDecisions s) (pendingResponseIdForApproval s)
    (oauthConsentLink s) (pendingResponseIdForOauth s).

Definition setPendingApprovals v (s : AppState) : AppState :=
  MkAppState (error s) (needsConsent s) (accessToken s) (agentName s)
    (chatInput s) (chatLoading s) (messages s) (previousResponseId s) v
    (approvalDecisions s) (pendingResponseIdForApproval s)
    (oauthConsentLink s) (pendingResponseIdForOauth s).

(** [setApprovalDecisions] takes a value or an updater; a value is the
    constant updater. *)
Definition setApprovalDecisions (f : gmap jsstring bool → gmap jsstring bool)
    (s : AppState) : AppState :=
  MkAppState (error s) (needsConsent s) (accessToken s) (agentName s)
    (chatInput s) (chatLoading s) (messages s) (previousResponseId s)
    (pendingApprovals s) (f (approvalDecisions s))
    (pendingResponseIdForApproval s) (oauthConsentLink s)
    (pendingResponseIdForOauth s).

Definition setPendingResponseIdForApproval v (s : AppState) : AppState :=
  MkAppState (error s) (needsConsent s) (accessToken s) (agentName s)
    (chatInput s) (chatLoading s) (messages s) (previousResponseId s)
    (pendingApprovals s) (approvalDecisions s) v (oauthConsentLink s)
    (pendingResponseIdForOauth s).

Definition setOauthConsentLink v (s : AppState) : AppState :=
  MkAppState (error s) (needsConsent s) (accessToken s) (agentName s)
    (chatInput s) (chatLoading s) (messages s) (previousResponseId s)
    (pendingApprovals s) (approvalDecisions s)
    (pendingResponseIdForApproval s) v (pendingResponseIdForOauth s).

Definition setPendingResponseIdForOauth v (s : AppState) : AppState :=
  MkAppState (error s) (needsConsent s) (accessToken s) (agentName s)
    (chatInput s) (chatLoading s) (messages s) (previousResponseId s)
    (pendingApprovals s) (approvalDecisions s)
    (pendingResponseIdForApproval s) (oauthConsentLink s) v.

(** A handler body is a sequence of setter calls, run in order. *)
Definition run (body : list (AppState → AppState)) (s : AppState) : AppState :=
  foldl (λ s f, f s) s body.

(** ** [resetChat] *)

Definition resetChat : AppState → AppState :=
  run [ setMessages (λ _, []);
        setPreviousResponseId None;
        setPendingApprovals None;
        setApprovalDecisions (λ _, ∅);
        setPendingResponseIdForApproval None;
        setOauthConsentLink None;
        setPendingResponseIdForOauth None;
        setError None ].

(** ** [logout] and [consentAndGetToken]

    Both end in a redirect of MSAL; until the browser has left the page
    the app keeps running, so only their setters are modelled. [logout]
    also clears [tokenClaims] and [backendResult]. *)

Definition logout : AppState → AppState :=
  run [ setError None;
        setNeedsConsent false;
        setAccessToken None;
        setMessages (λ _, []);
        setPreviousResponseId None;
        setPendingApprovals None;
        setApprovalDecisions (λ _, ∅);
        setPendingResponseIdForApproval None;
        setOauthConsentLink None;
        setPendingResponseIdForOauth None ].

Definition consentAndGetToken : AppState → AppState :=
  run [setError None; setNeedsConsent false].

(** ** [applyChatResponse] *)

Definition oauth_consent_required : jsstring := js "oauth_consent_required".
Definition approval_required : jsstring := js "approval_required".

Definition consent_notice : jsstring :=
  js "OAuth consent required to access the MCP tools. Open the consent link below, complete sign-in, then click "
  ++ [0x201C%N] ++ js "I completed sign-in" ++ [0x201D%N] ++ js ".".

Definition no_output_text : jsstring := js "(no output_text)".

(** [data.approval_requests || []] *)
Definition requests_of (data : ChatResponse) : list ApprovalRequest :=
  default [] (approval_requests data).

(** *** Plain objects used as maps

    [approvalDecisions] is a plain object keyed by request id. The map
    holds the object's own properties; [Object.prototype] stands behind
    it with the members named here, all of them truthy. *)
Definition Object_prototype_names : list jsstring :=
  [ js "constructor"; js "__defineGetter__"; js "__defineSetter__";
    js "hasOwnProperty"; js "__lookupGetter__"; js "__lookupSetter__";
    js "isPrototypeOf"; js "propertyIsEnumerable"; js "toString";
    js "valueOf"; js "__proto__"; js "toLocaleString" ].

(** [o[k] = v] with a boolean [v]. For [__proto__] the assignment runs the
    inherited setter, which ignores a boolean and creates no property;
    every other name becomes (or stays) an own property. *)
Definition obj_assign (k : jsstring) (v : bool) (o : gmap jsstring bool)
  : gmap jsstring bool :=
  if decide (k = js "__proto__") then o else <[k := v]> o.

(** [!!o[k]]: the own property if there is one, else what is inherited. *)
Definition obj_truthy (o : gmap jsstring bool) (k : jsstring) : bool :=
  match o !! k with
  | Some v => v
  | None => bool_decide (k ∈ Object_prototype_names)
  end.

(** [for (const r of ...) defaults[r.id] = false] starting from [{}] *)
Definition deny_by_default (rs : list ApprovalRequest) : gmap jsstring bool :=
  foldl (λ defaults r, obj_assign (id r) false defaults) ∅ rs.

Definition applyChatResponse (data : ChatResponse) : AppState → AppState :=
  if decide (status data = Some oauth_consent_required) then
    run [ setOauthConsentLink (or_null (consent_link data));
          setPendingResponseIdForOauth (or_null (response_id data));
          setPreviousResponseId (or_null (response_id data));
          setMessages (λ m, m ++ [MkMessage assistant consent_notice]) ]
  else if decide (status data = Some approval_required) then
    run [ setPendingApprovals (Some (requests_of data));
          setPendingResponseIdForApproval (or_null (response_id data));
          setPreviousResponseId (or_null (response_id data));
          setApprovalDecisions (λ _, deny_by_default (requests_of data)) ]
  else
    let out := or_else (output_text data) [] in
    run [ setMessages
            (λ m, m ++ [MkMessage assistant (or_else (Some out) no_output_text)]);
          setPreviousResponseId (or_null (response_id data));
          setPendingApprovals None;
          setPendingResponseIdForApproval None;
          setApprovalDecisions (λ _, ∅);
          setOauthConsentLink None;
          setPendingResponseIdForOauth None ].

(** ** Collaborators

    What the identity provider and the backend answer is an input of the
    model: one [Env] per request. *)

(** The outcome of [instance.acquireTokenSilent]. *)
Inductive SilentResult :=
| Acquired (tok : jsstring)
| InteractionRequired
| SilentFails (e : JsError).

(** The outcome of [fetch] followed by [res.json().catch(() => ({}))].
    [fetch] rejects with a [TypeError] when the network fails.
    [FetchOkNull] is an [ok] response whose JSON body is [null]; [thrown]
    is the message of the [TypeError] the engine raises when
    [applyChatResponse] then reads [data.status]. *)
Inductive FetchResult :=
| FetchRejects (reason : jsstring)
| FetchNotOk (http_status : N) (body_detail body_error : option jsstring)
| FetchOk (data : ChatResponse)
| FetchOkNull (thrown : jsstring).

Record Env := MkEnv {
  has_account : bool;
  silent : SilentResult;
  fetch : FetchResult;
}.

(** ** [tryGetTokenSilent] *)

Definition tryGetTokenSilent (env : Env) (s : AppState)
  : AppState * option jsstring :=
  if negb (has_account env) then (s, None)
  else
    let s := setError None s in
    match silent env with
    | Acquired tok =>
        (run [setAccessToken (Some tok); setNeedsConsent false] s, Some tok)
    | InteractionRequired => (setNeedsConsent true s, None)
    | SilentFails e => (setError (Some (error_text e)) s, None)
    end.

(** ** [postChat] *)

(** What [postChat] gives its caller: a rejection, or [{ok, error}] /
    [{ok, data}]. *)
Inductive PostResult :=
| Threw (e : JsError)
| NotOk (err : jsstring)
| Ok (data : ChatResponse)
| OkNull (thrown : jsstring).

Definition no_access_token : jsstring := js "No access token (consent required?)".

(** [`HTTP ${res.status}`] *)
Definition http_status_text (code : N) : jsstring := js "HTTP " ++ js (pretty code).

(** [token0] is the [accessToken] of the render the handler closed over.
    The third component lists the bodies handed to [fetch]. *)
Definition postChat (token0 : option jsstring) (env : Env) (body : ChatRequest)
    (s : AppState) : AppState * PostResult * list ChatRequest :=
  let '(s1, token) :=
    if truthy token0 then (s, token0) else tryGetTokenSilent env s in
  if negb (truthy token) then (s1, NotOk no_access_token, [])
  else
    match fetch env with
    | FetchRejects reason => (s1, Threw (MkJsError (js "TypeError") reason), [body])
    | FetchNotOk code d e =>
        (s1, NotOk (or_else d (or_else e (http_status_text code))), [body])
    | FetchOk data => (s1, Ok data, [body])
    | FetchOkNull thrown => (s1, OkNull thrown, [body])
    end.

(** ** The three chat handlers

    Each handler is [guard; setters; await postChat(body); ...]. The
    [_start] function is the part before the [await]: [None] when the
    guard returns early, otherwise the state after the setters and the
    body given to [postChat]. [settle] is the part after it. *)

Inductive Handler := HSend | HResume | HApprove.

(** The message of the [Error] thrown when [postChat] gives no [error]. *)
Definition fallback (h : Handler) : jsstring :=
  match h with
  | HSend => js "Chat request failed"
  | HResume => js "Continue after OAuth consent failed"
  | HApprove => js "Approval submit failed"
  end.

Definition sendMessage_start (s : AppState) : option (AppState * ChatRequest) :=
  let text := trim (chatInput s) in
  if negb (truthy (Some text)) || chatLoading s then None
  else
    Some (run [ setError None;
                setChatInput [];
                setChatLoading true;
                setMessages (λ m, m ++ [MkMessage user text]) ] s,
          {| agent_name := agentName s;
             message := Some text;
             previous_response_id := previousResponseId s;
             action := None;
             approvals := None |}).

Definition resumeAfterOauthConsent_start (s : AppState)
  : option (AppState * ChatRequest) :=
  if negb (truthy (pendingResponseIdForOauth s)) || chatLoading s then None
  else
    Some (run [setError None; setChatLoading true] s,
          {| agent_name := agentName s;
             message := None;
             previous_response_id := pendingResponseIdForOauth s;
             action := Some (js "continue");
             approvals := None |}).

(** [pendingApprovals?.length], with [undefined] read as [0]. *)
Definition batch_length (s : AppState) : nat :=
  length (default [] (pendingApprovals s)).

(** [!!approvalDecisions[r.id]] *)
Definition decision (decisions : gmap jsstring bool) (rid : jsstring) : bool :=
  obj_truthy decisions rid.

Definition submitApprovals_start (s : AppState)
  : option (AppState * ChatRequest) :=
  if bool_decide (batch_length s = 0)
     || negb (truthy (pendingResponseIdForApproval s))
     || chatLoading s
  then None
  else
    Some (run [setError None; setChatLoading true] s,
          {| agent_name := agentName s;
             message := None;
             previous_response_id := pendingResponseIdForApproval s;
             action := None;
             approvals :=
               Some (map (λ r, MkApprovalEntry (id r)
                                 (decision (approvalDecisions s) (id r)))
                         (default [] (pendingApprovals s))) |}).

Definition handler_start (h : Handler) : AppState → option (AppState * ChatRequest) :=
  match h with
  | HSend => sendMessage_start
  | HResume => resumeAfterOauthConsent_start
  | HApprove => submitApprovals_start
  end.

(** [try { r = await postChat(body); if (!ok) throw ...; applyChatResponse }
    catch (e) { setError } finally { setChatLoading(false) }].
    [applyChatResponse(null)] throws at its first line, before any
    setter. *)
Definition settle (h : Handler) (token0 : option jsstring) (env : Env)
    (body : ChatRequest) (s : AppState) : AppState * list ChatRequest :=
  let '(s1, r, sent) := postChat token0 env body s in
  let s2 :=
    match r with
    | Ok data => applyChatResponse data s1
    | NotOk err =>
        setError (Some (error_text (new_Error (or_else (Some err) (fallback h))))) s1
    | Threw e => setError (Some (error_text e)) s1
    | OkNull thrown =>
        setError (Some (error_text (MkJsError (js "TypeError") thrown))) s1
    end in
  (setChatLoading false s2, sent).

(** A handler run from the user's action to the end of its [finally],
    with nothing else happening in between. *)
Definition handle (h : Handler) (env : Env) (s : AppState)
  : AppState * list ChatRequest :=
  match handler_start h s with
  | None => (s, [])
  | Some (s1, body) => settle h (accessToken s) env body s1
  end.

Definition sendMessage := handle HSend.
Definition resumeAfterOauthConsent := handle HResume.
Definition submitApprovals := handle HApprove.

(** ** The rendered chat panel

    What the JSX of the chat card lets the user do: a control that is not
    rendered or is [disabled] fires no handler. Besides the chat card,
    the events are the silent token refresh (its button, and the effect
    that runs it after sign-in), Sign out and Continue to consent. Sign
    out is never disabled; Continue to consent is rendered while
    [needsConsent] is set. Call Backend writes [error], the token cells
    (through [tryGetTokenSilent], as the refresh does) and the cells of
    its own card; it is [callBackend] below and is not an event. *)

(** [disabled] of the chat [<input>]. *)
Definition input_disabled (s : AppState) : bool :=
  chatLoading s || needsConsent s || truthy (oauthConsentLink s).

(** [disabled] of the Send [<button>]. *)
Definition send_disabled (s : AppState) : bool :=
  input_disabled s || negb (truthy (Some (trim (chatInput s)))).

(** [{oauthConsentLink && ...}]: the consent card is rendered. *)
Definition consent_shown (s : AppState) : bool := truthy (oauthConsentLink s).

(** [{pendingApprovals?.length > 0 && ...}]: the approval card is rendered. *)
Definition approvals_shown (s : AppState) : bool :=
  bool_decide (0 < batch_length s).

(** The [onChange] of the checkbox of request [rid]:
    [setApprovalDecisions((prev) => ({...prev, [r.id]: e.target.checked}))].
    A computed key in an object literal defines an own property, also for
    [__proto__]. *)
Definition onApprovalChange (rid : jsstring) (checked : bool)
  : AppState → AppState :=
  setApprovalDecisions (λ prev, <[rid := checked]> prev).

(** The [onClick] of Deny all. *)
Definition onDenyAll (s : AppState) : AppState :=
  setApprovalDecisions
    (λ _, deny_by_default (default [] (pendingApprovals s))) s.

(** The app together with the request it is waiting for. *)
Record InFlight := MkInFlight {
  handler : Handler;
  closure_token : option jsstring;
  body : ChatRequest;
}.

Record Config := MkConfig {
  app : AppState;
  inflight : option InFlight;
  sent : list ChatRequest;
}.

Definition boot : Config := MkConfig initial None [].

Inductive Event :=
| TypeAgentName (v : jsstring)
| RefreshToken (env : Env)
| TypeInput (v : jsstring)
| PressEnter
| ClickSend
| ClickCompletedSignIn
| ToggleApproval (rid : jsstring) (checked : bool)
| ClickSubmitApprovals
| ClickDenyAll
| ClickNewChat
| ClickSignOut
| ClickContinueToConsent
| Settle (env : Env).

Definition with_app (f : AppState → AppState) (c : Config) : Config :=
  MkConfig (f (app c)) (inflight c) (sent c).

(** Calling a handler: its synchronous part runs, and the request (if the
    guard let it through) is now awaited. *)
Definition call (h : Handler) (c : Config) : Config :=
  match handler_start h (app c) with
  | None => c
  | Some (s1, b) =>
      MkConfig s1 (Some (MkInFlight h (accessToken (app c)) b)) (sent c)
  end.

Definition arrive (env : Env) (c : Config) : Config :=
  match inflight c with
  | None => c
  | Some f =>
      let '(s', reqs) :=
        settle (handler f) (closure_token f) env (body f) (app c) in
      MkConfig s' None (sent c ++ reqs)
  end.

Definition step (e : Event) (c : Config) : Config :=
  let s := app c in
  match e with
  | TypeAgentName v => with_app (setAgentName v) c
  | RefreshToken env => with_app (λ s, (tryGetTokenSilent env s).1) c
  | TypeInput v =>
      if input_disabled s then c else with_app (setChatInput v) c
  | PressEnter =>
      if input_disabled s then c else call HSend c
  | ClickSend =>
      if send_disabled s then c else call HSend c
  | ClickCompletedSignIn =>
      if consent_shown s && negb (chatLoading s) then call HResume c else c
  | ToggleApproval rid checked =>
      if approvals_shown s
         && bool_decide (rid ∈ map id (default [] (pendingApprovals s)))
      then with_app (onApprovalChange rid checked) c
      else c
  | ClickSubmitApprovals =>
      if approvals_shown s && negb (chatLoading s) then call HApprove c else c
  | ClickDenyAll =>
      if approvals_shown s && negb (chatLoading s) then with_app onDenyAll c
      else c
  | ClickNewChat =>
      if chatLoading s then c else with_app resetChat c
  | ClickSignOut => with_app logout c
  | ClickContinueToConsent =>
      if needsConsent s then with_app consentAndGetToken c else c
  | Settle env => arrive env c
  end.

(** Events are processed one after the other, oldest first. *)
Definition play (es : list Event) (c : Config) : Config :=
  foldl (λ c e, step e c) c es.

(** The two blocking modes: a consent link is stored, a batch with at
    least one request is stored. *)
Definition consent_live (s : AppState) : bool :=
  bool_decide (oauthConsentLink s ≠ None).

Definition approvals_pending (s : AppState) : bool :=
  bool_decide (0 < batch_length s).

(** ** Scenarios

    Concrete responses and event sequences, used to run the model. *)

Module Scenario.

Definition jira_search : ApprovalRequest :=
  MkApprovalRequest (js "apr_1") (js "jira") (js "jira_search") (js "{}").

Definition answers (r : FetchResult) : Env :=
  MkEnv true (Acquired (js "eyJ0")) r.

Definition final_with_id : ChatResponse :=
  MkChatResponse None None (Some (js "resp_1")) None (Some (js "Hello")).

Definition final_without_id : ChatResponse :=
  MkChatResponse None None None None (Some (js "3 open issues")).

Definition approval_batch : ChatResponse :=
  MkChatResponse (Some approval_required) None (Some (js "resp_2"))
    (Some [jira_search]) None.

Definition empty_batch : ChatResponse :=
  MkChatResponse (Some approval_required) None (Some (js "resp_3"))
    (Some []) None.

Definition consent : ChatResponse :=
  MkChatResponse (Some oauth_consent_required)
    (Some (js "https://consent.example/start")) (Some (js "resp_4")) None None.

(** The same request twice in one batch. *)
Definition repeated_batch : ChatResponse :=
  MkChatResponse (Some approval_required) None (Some (js "resp_6"))
    (Some [jira_search; jira_search]) None.

(** A request whose identifier is the string [__proto__]. *)
Definition proto_request : ApprovalRequest :=
  MkApprovalRequest (js "__proto__") (js "jira") (js "jira_search") (js "{}").

Definition proto_batch : ChatResponse :=
  MkChatResponse (Some approval_required) None (Some (js "resp_7"))
    (Some [proto_request]) None.

(** Consent is declared and an approval batch rides along. *)
Definition consent_with_batch : ChatResponse :=
  MkChatResponse (Some oauth_consent_required)
    (Some (js "https://consent.example/start")) (Some (js "resp_5"))
    (Some [jira_search]) None.

(** One completed turn: the chain token is [resp_1]. *)
Definition first_turn : list Event :=
  [ TypeInput (js "What are my open issues?"); PressEnter;
    Settle (answers (FetchOk final_with_id)) ].

(** A turn that ends with a batch of one approval request. *)
Definition to_approvals : list Event :=
  [ TypeInput (js "What are my open issues?"); PressEnter;
    Settle (answers (FetchOk approval_batch)) ].

(** The batch is approved and submitted; the agent answers that consent
    is required. *)
Definition approvals_then_consent : list Event :=
  to_approvals ++
  [ ToggleApproval (js "apr_1") true; ClickSubmitApprovals;
    Settle (answers (FetchOk consent)) ].

(** A message is on its way and nothing has come back yet. *)
Definition waiting : list Event :=
  [ TypeInput (js "What are my open issues?"); PressEnter ].

(** The same with the access token already at hand, so that the request
    goes straight to [fetch]. *)
Definition waiting_with_token : list Event :=
  RefreshToken (answers (FetchRejects [])) :: waiting.

(** The session after the agent asked for approval of no tool at all:
    the empty batch is stored with its response identifier. *)
Definition empty_batch_stored : AppState :=
  app (play [ TypeInput (js "hi"); PressEnter;
              Settle (answers (FetchOk empty_batch)) ] boot).

End Scenario.

(** ** Statements read off the specification *)

(** The chain token follows the response: it becomes the identifier the
    response carries, and stays as it was when the response carries none. *)
Definition chain_token_follows (data : ChatResponse) (s : AppState) : Prop :=
  match response_id data with
  | Some r => previousResponseId (applyChatResponse data s) = Some r
  | None => previousResponseId (applyChatResponse data s) = previousResponseId s
  end.

(** What each branch does to the state, [s] before and [s'] after. *)
Definition consent_effects (data : ChatResponse) (s s' : AppState) : Prop :=
  oauthConsentLink s' = or_null (consent_link data) ∧
  pendingResponseIdForOauth s' = or_null (response_id data) ∧
  messages s' = messages s ++ [MkMessage assistant consent_notice] ∧
  pendingApprovals s' = pendingApprovals s ∧
  approvalDecisions s' = approvalDecisions s ∧
  pendingResponseIdForApproval s' = pendingResponseIdForApproval s.

Definition approval_effects (data : ChatResponse) (s s' : AppState) : Prop :=
  pendingApprovals s' = Some (default [] (approval_requests data)) ∧
  pendingResponseIdForApproval s' = or_null (response_id data) ∧
  messages s' = messages s ∧
  oauthConsentLink s' = oauthConsentLink s ∧
  pendingResponseIdForOauth s' = pendingResponseIdForOauth s.

(** The text shown for a final response. *)
Definition final_text (data : ChatResponse) : jsstring :=
  match output_text data with
  | Some (c :: r) => c :: r
  | _ => no_output_text
  end.

Definition final_effects (data : ChatResponse) (s s' : AppState) : Prop :=
  messages s' = messages s ++ [MkMessage assistant (final_text data)] ∧
  pendingApprovals s' = None ∧
  approvalDecisions s' = ∅ ∧
  pendingResponseIdForApproval s' = None ∧
  oauthConsentLink s' = None ∧
  pendingResponseIdForOauth s' = None.

(** At most one of the two blocking modes is active. *)
Definition one_blocking_mode (s : AppState) : bool :=
  negb (consent_live s && approvals_pending s).

(** The response a settling request hands to [applyChatResponse], if it
    gets that far. *)
Definition applied (env : Env) (c : Config) : option ChatResponse :=
  match inflight c with
  | Some f =>
      match postChat (closure_token f) env (body f) (app c) with
      | (_, Ok data, _) => Some data
      | _ => None
      end
  | None => None
  end.

(** The event delivers a consent link while a batch is pending, or a
    non-empty batch while a consent link is stored. *)
Definition crosses (e : Event) (c : Config) : bool :=
  match e with
  | Settle env =>
      match applied env c with
      | Some data =>
          bool_decide (status data = Some oauth_consent_required)
            && truthy (consent_link data) && approvals_pending (app c)
          || bool_decide (status data = Some approval_required)
            && bool_decide (0 < length (default [] (approval_requests data)))
            && consent_live (app c)
      | None => false
      end
  | _ => false
  end.

Fixpoint uncrossed (es : list Event) (c : Config) : bool :=
  match es with
  | [] => true
  | e :: es' => negb (crosses e c) && uncrossed es' (step e c)
  end.

(** Pressing Enter or clicking Send does not get a message through: the
    transcript stays as it is and no request is issued. *)
Definition submission_rejected (c : Config) : Prop :=
  ∀ e, e ∈ [PressEnter; ClickSend] →
    messages (app (step e c)) = messages (app c) ∧
    inflight (step e c) = inflight c.

(** The session is reset while the request of [c] is awaited (Sign out
    is the one control that does so), and the response that settles
    afterwards leaves the new session as the reset made it. *)
Definition late_response_discarded (env : Env) (c : Config) : Prop :=
  let c' := step (Settle env) (step ClickSignOut c) in
  messages (app c') = [] ∧
  previousResponseId (app c') = None ∧
  consent_live (app c') = false ∧
  approvals_pending (app c') = false.

(** The conversation: the cells [resetChat] clears, [error] apart. *)
Definition conversation (s : AppState) :=
  (messages s, previousResponseId s, pendingApprovals s, approvalDecisions s,
   pendingResponseIdForApproval s, oauthConsentLink s,
   pendingResponseIdForOauth s).

(** The stored consent link is [null] or a non-empty string. *)
Definition link_normal (s : AppState) : Prop :=
  oauthConsentLink s = or_null (oauthConsentLink s).

(** The entries hold exactly one entry for every id of the batch. *)
Definition every_id_decided_once (batch : list ApprovalRequest)
    (entries : list ApprovalEntry) : Prop :=
  ∀ k, k ∈ id <$> batch →
       ∃ a, filter (λ e, approval_request_id e = k) entries
            = [MkApprovalEntry k a].

(** What the user last set the checkbox of [k] to, given the changes in
    the order they were made; [false] when it was never touched. *)
Definition last_choice (toggles : list (jsstring * bool)) (k : jsstring) : bool :=
  foldl (λ choice t, if decide (t.1 = k) then t.2 else choice) false toggles.

(** Submitting approvals posts one request with an empty [approvals]
    array and the current chain token. *)
Definition sends_empty_approvals (env : Env) (s : AppState) : Prop :=
  ∃ req, (submitApprovals env s).2 = [req] ∧
         approvals req = Some [] ∧
         previous_response_id req = previousResponseId s.

(** Only whitespace, or nothing at all. *)
Definition blank (v : jsstring) : Prop := Forall (λ c, is_js_space c = true) v.

(** [v] is [pre ++ t ++ post] with [pre] and [post] whitespace and [t]
    neither starting nor ending with whitespace. *)
Definition trimmed_of (v t : jsstring) : Prop :=
  (∃ pre post, v = pre ++ t ++ post ∧ blank pre ∧ blank post) ∧
  (∀ c, head t = Some c → is_js_space c = false) ∧
  (∀ c, last t = Some c → is_js_space c = false).


(** ** Further properties of the handlers and of the panel *)

(** A transcript entry is tidy: its text is not empty, and a user's text
    neither starts nor ends with whitespace. *)
Definition tidy_message (m : Message) : Prop :=
  text m ≠ [] ∧
  (role m = user →
   (∀ c, head (text m) = Some c → is_js_space c = false) ∧
   (∀ c, last (text m) = Some c → is_js_space c = false)).

(** The decision map has keys only for ids of the stored batch, and has
    one for each of them except [__proto__], which the default-deny loop
    cannot create. *)
Definition keyed (s : AppState) : Prop :=
  ∀ k, (is_Some (approvalDecisions s !! k) →
        k ∈ id <$> default [] (pendingApprovals s)) ∧
       (k ∈ id <$> default [] (pendingApprovals s) → k ≠ js "__proto__" →
        is_Some (approvalDecisions s !! k)).

(** A token is at hand for [postChat]: the render's [accessToken] is
    truthy, or there is an account and the silent acquisition returns a
    non-empty token. *)
Definition token_resolves (token0 : option jsstring) (env : Env) : bool :=
  truthy token0
  || has_account env
     && match silent env with Acquired (_ :: _) => true | _ => false end.

(** The session waits for nothing: no request, no consent, no approvals. *)
Definition idle (s : AppState) : Prop :=
  chatLoading s = false ∧ consent_live s = false ∧ approvals_pending s = false.

(** The controls that are dead while a request is awaited. *)
Definition blocked_in_flight (e : Event) : Prop :=
  match e with
  | TypeInput _ | PressEnter | ClickSend | ClickCompletedSignIn
  | ClickSubmitApprovals | ClickDenyAll | ClickNewChat => True
  | _ => False
  end.

(** ** [decodeJwtPayload] *)

(** [s.split(".")]: the pieces of [s] between the dots. *)
Fixpoint split_dot (s : jsstring) : list jsstring :=
  match s with
  | [] => [[]]
  | c :: r =>
      if bool_decide (c = 0x2E%N) then [] :: split_dot r
      else match split_dot r with
           | piece :: pieces => (c :: piece) :: pieces
           | [] => [[c]]
           end
  end.

(** [.replace(/-/g, "+").replace(/_/g, "/")], one code unit at a time. *)
Definition to_base64_alphabet (c : N) : N :=
  if bool_decide (c = 0x2D%N) then 0x2B%N
  else if bool_decide (c = 0x5F%N) then 0x2F%N
  else c.

(** The value of a code unit of the base64 alphabet. *)
Definition b64_value (c : N) : option N :=
  if (0x41 <=? c)%N && (c <=? 0x5A)%N then Some (c - 0x41)%N
  else if (0x61 <=? c)%N && (c <=? 0x7A)%N then Some (c - 0x61 + 26)%N
  else if (0x30 <=? c)%N && (c <=? 0x39)%N then Some (c - 0x30 + 52)%N
  else if bool_decide (c = 0x2B%N) then Some 62%N
  else if bool_decide (c = 0x2F%N) then Some 63%N
  else None.

(** Six-bit values to bytes: four values give three bytes; two or three
    left-over values give one or two bytes, their spare bits dropped. *)
Fixpoint b64_bytes (v : list N) : list N :=
  match v with
  | a :: b :: c :: d :: rest =>
      (a * 4 + b / 16)%N :: (b mod 16 * 16 + c / 4)%N
        :: (c mod 4 * 64 + d)%N :: b64_bytes rest
  | [a; b; c] => [(a * 4 + b / 16)%N; (b mod 16 * 16 + c / 4)%N]
  | [a; b] => [(a * 4 + b / 16)%N]
  | _ => []
  end.

Definition is_ascii_whitespace (c : N) : bool :=
  bool_decide (c ∈ [0x09; 0x0A; 0x0C; 0x0D; 0x20]%N).

(** One or two [=] at the end go, when the length is a multiple of four. *)
Definition strip_padding (d : jsstring) : jsstring :=
  if bool_decide (length d mod 4 = 0) then
    match reverse d with
    | c1 :: r1 =>
        if bool_decide (c1 = 0x3D%N) then
          match r1 with
          | c2 :: r2 => if bool_decide (c2 = 0x3D%N) then reverse r2 else reverse r1
          | [] => reverse r1
          end
        else d
    | [] => d
    end
  else d.

(** [atob]: the forgiving base64 decoding of the browser. [None] is the
    [InvalidCharacterError] it throws. The result is a string of code
    units below 256. *)
Definition atob (data : jsstring) : option jsstring :=
  let d := strip_padding (filter (λ c, is_ascii_whitespace c = false) data) in
  if bool_decide (length d mod 4 = 1) then None
  else b64_bytes <$> mapM b64_value d.

Definition hex_digit (d : N) : N :=
  if (d <? 10)%N then (0x30 + d)%N else (0x61 + (d - 10))%N.

(** ["%" + ("00" + c.charCodeAt(0).toString(16)).slice(-2)]: the last two
    hexadecimal digits of the code unit. *)
Definition percent_escape (c : N) : jsstring :=
  [0x25%N; hex_digit (c / 16 mod 16); hex_digit (c mod 16)].

Section decodeJwtPayload.
(** The two built-ins the function ends with; [None] is a throw. *)
Context {Json : Type}.
Variable decodeURIComponent : jsstring → option jsstring.
Variable JSON_parse : jsstring → option Json.

(** [None] is the [null] of the [catch]. *)
Definition decodeJwtPayload (token : jsstring) : option Json :=
  payload ← split_dot token !! 1;
  binary ← atob (to_base64_alphabet <$> payload);
  json ← decodeURIComponent (concat (percent_escape <$> binary));
  JSON_parse json.

End decodeJwtPayload.

(** Unpadded base64url (RFC 4648, section 5), the encoding of the
    segments of a JWT. *)
Definition b64url_char (v : N) : N :=
  if (v <? 26)%N then (v + 0x41)%N
  else if (v <? 52)%N then (v - 26 + 0x61)%N
  else if (v <? 62)%N then (v - 52 + 0x30)%N
  else if (v =? 62)%N then 0x2D%N
  else 0x5F%N.

Fixpoint b64_sextets (bs : list N) : list N :=
  match bs with
  | x :: y :: z :: rest =>
      (x / 4)%N :: (x mod 4 * 16 + y / 16)%N :: (y mod 16 * 4 + z / 64)%N
        :: (z mod 64)%N :: b64_sextets rest
  | [x; y] => [(x / 4)%N; (x mod 4 * 16 + y / 16)%N; (y mod 16 * 4)%N]
  | [x] => [(x / 4)%N; (x mod 4 * 16)%N]
  | [] => []
  end.

Definition base64url (bs : list N) : jsstring := b64url_char <$> b64_sextets bs.

(** A list of bytes. *)
Definition bytes (bs : list N) : Prop := Forall (λ b, (b < 256)%N) bs.

(** A request body has one of the three shapes the handlers build: a new
    message (a non-empty text, nothing else), a continue (the action and
    the identifier to continue from), or approvals (at least one entry
    and the identifier they answer). *)
Definition well_shaped (b : ChatRequest) : Prop :=
  (∃ t, message b = Some t ∧ t ≠ [] ∧ action b = None ∧ approvals b = None)
  ∨ (message b = None ∧ action b = Some (js "continue") ∧
     approvals b = None ∧ truthy (previous_response_id b) = true)
  ∨ (message b = None ∧ action b = None ∧
     (∃ entries, approvals b = Some entries ∧ entries ≠ []) ∧
     truthy (previous_response_id b) = true).

(** ** [callBackend]

    The backend card has two cells of its own besides those of the chat:
    the spinner flag and the last result. The result is kept as its JSON
    text; the cell is [null] before any call and again after an answer
    whose body is the JSON value [null]. *)
Record Panel := MkPanel {
  chat : AppState;
  backendLoading : bool;
  backendResult : option jsstring;
}.

(** *** [encodeURIComponent]

    The built-in walks the code units. Letters, digits and [-_.!~*'()]
    stay; any other code point goes out as the [%XX] escapes of its
    UTF-8 octets. A surrogate that is not half of a pair makes it throw
    a [URIError]: that is [None]. *)
Definition is_high_surrogate (c : N) : bool := (0xD800 <=? c)%N && (c <=? 0xDBFF)%N.
Definition is_low_surrogate (c : N) : bool := (0xDC00 <=? c)%N && (c <=? 0xDFFF)%N.

Definition uri_unescaped (c : N) : bool :=
  (0x41 <=? c)%N && (c <=? 0x5A)%N
  || (0x61 <=? c)%N && (c <=? 0x7A)%N
  || (0x30 <=? c)%N && (c <=? 0x39)%N
  || bool_decide (c ∈ [0x2D; 0x5F; 0x2E; 0x21; 0x7E; 0x2A; 0x27; 0x28; 0x29]%N).

Definition code_point (high low : N) : N :=
  ((high - 0xD800) * 0x400 + (low - 0xDC00) + 0x10000)%N.

Definition utf8 (cp : N) : list N :=
  if (cp <? 0x80)%N then [cp]
  else if (cp <? 0x800)%N then [(0xC0 + cp / 64)%N; (0x80 + cp mod 64)%N]
  else if (cp <? 0x10000)%N then
    [(0xE0 + cp / 4096)%N; (0x80 + cp / 64 mod 64)%N; (0x80 + cp mod 64)%N]
  else
    [(0xF0 + cp / 262144)%N; (0x80 + cp / 4096 mod 64)%N;
     (0x80 + cp / 64 mod 64)%N; (0x80 + cp mod 64)%N].

Definition upper_hex_digit (d : N) : N :=
  if (d <? 10)%N then (0x30 + d)%N else (0x41 + (d - 10))%N.

Definition uri_escape (cp : N) : jsstring :=
  concat ((λ octet, [0x25%N; upper_hex_digit (octet / 16);
                     upper_hex_digit (octet mod 16)]) <$> utf8 cp).

Fixpoint encodeURIComponent (s : jsstring) : option jsstring :=
  match s with
  | [] => Some []
  | c :: r =>
      if uri_unescaped c then (c ::.) <$> encodeURIComponent r
      else if is_low_surrogate c then None
      else if is_high_surrogate c then
        match r with
        | d :: r' =>
            if is_low_surrogate d
            then (uri_escape (code_point c d) ++.) <$> encodeURIComponent r'
            else None
        | [] => None
        end
      else (uri_escape c ++.) <$> encodeURIComponent r
  end.

(** [s.isWellFormed()]: every surrogate of [s] is half of a pair. *)
Fixpoint well_formed_utf16 (s : jsstring) : bool :=
  match s with
  | [] => true
  | c :: r =>
      if is_low_surrogate c then false
      else if is_high_surrogate c then
        match r with
        | d :: r' => is_low_surrogate d && well_formed_utf16 r'
        | [] => false
        end
      else well_formed_utf16 r
  end.

(** *** The call *)

(** What [GET /agents/<name>] answers, after
    [apiRes.json().catch(() => ({}))]. The body of an [ok] answer is its
    JSON text, [None] for the JSON value [null]. *)
Inductive BackendFetch :=
| BackendRejects (reason : jsstring)
| BackendNotOk (http_status : N) (body_detail body_error : option jsstring)
| BackendOk (data : option jsstring).

(** A call of [fetch]: the path after [BACKEND_BASE] and the
    [Authorization] header. *)
Record BackendRequest := MkBackendRequest {
  path : jsstring;
  authorization : jsstring;
}.

(** [`Backend error: ${apiRes.status}`] *)
Definition backend_error_text (code : N) : jsstring :=
  js "Backend error: " ++ js (pretty code).

(** [env] gives the account and the silent acquisition; [answer] is what
    the backend says; [malformed] is the message the engine gives the
    [URIError] of [encodeURIComponent]. The template literal of the URL
    is evaluated before [fetch] is called, so a throw there leaves no
    call. Nothing thrown in the [try] is an
    [InteractionRequiredAuthError], so the [catch] always sets [error]. *)
Definition callBackend (malformed : jsstring) (env : Env)
    (answer : BackendFetch) (p : Panel) : Panel * list BackendRequest :=
  if negb (has_account env) then (p, [])
  else
    let s0 := setError None (chat p) in
    let '(s1, token) :=
      if truthy (accessToken (chat p)) then (s0, accessToken (chat p))
      else tryGetTokenSilent env s0 in
    match token with
    | Some (c :: r) =>
        match encodeURIComponent (agentName (chat p)) with
        | None =>
            (MkPanel
               (setError (Some (error_text (MkJsError (js "URIError") malformed))) s1)
               false None, [])
        | Some name =>
            let req :=
              MkBackendRequest (js "/agents/" ++ name) (js "Bearer " ++ c :: r) in
            match answer with
            | BackendRejects reason =>
                (MkPanel
                   (setError
                      (Some (error_text (MkJsError (js "TypeError") reason))) s1)
                   false None, [req])
            | BackendNotOk code d e =>
                (MkPanel
                   (setError
                      (Some (error_text
                               (new_Error
                                  (or_else d (or_else e (backend_error_text code))))))
                      s1)
                   false None, [req])
            | BackendOk data => (MkPanel s1 false data, [req])
            end
        end
    | _ => (MkPanel s1 false None, [])
    end.

(** * Proofs *)

(** ** Truthiness and the two status strings *)

Lemma or_null_cases (x : option jsstring) :
  or_null x = match x with Some (c :: r) => Some (c :: r) | _ => None end.
Proof. by destruct x as [[|c r]|]. Qed.

Lemma statuses_differ : oauth_consent_required ≠ approval_required.
Proof. vm_compute. discriminate. Qed.

(** ** The chain token *)

(** C1, as stated, fails: after a completed first turn the chain token is
    [resp_1]; a final response without an identifier then leaves [null]
    behind, not [resp_1]. *)
Lemma C1_chain_token_reset_counterexample :
  ¬ chain_token_follows Scenario.final_without_id
      (app (play Scenario.first_turn boot)).
Proof. unfold chain_token_follows. vm_compute. discriminate. Qed.

(** C1, amended: on every branch the stored chain token becomes the
    response's identifier when that is a non-empty string, and [null] when
    the response carries none (or an empty one). *)
Theorem C1_chain_token_amended (data : ChatResponse) (s : AppState) :
  previousResponseId (applyChatResponse data s) =
  match response_id data with
  | Some (c :: r) => Some (c :: r)
  | _ => None
  end.
Proof.
  rewrite <- or_null_cases. unfold applyChatResponse.
  repeat case_decide; reflexivity.
Qed.

(** ** The three branches of [applyChatResponse] *)

Lemma applyChatResponse_consent data s :
  status data = Some oauth_consent_required →
  consent_effects data s (applyChatResponse data s).
Proof.
  intros Hs. unfold applyChatResponse. rewrite decide_True by done.
  by repeat split.
Qed.

Lemma applyChatResponse_approval data s :
  status data ≠ Some oauth_consent_required →
  status data = Some approval_required →
  approval_effects data s (applyChatResponse data s).
Proof.
  intros Hc Ha. unfold applyChatResponse.
  rewrite decide_False, decide_True by done. by repeat split.
Qed.

Lemma applyChatResponse_final data s :
  status data ≠ Some oauth_consent_required →
  status data ≠ Some approval_required →
  final_effects data s (applyChatResponse data s).
Proof.
  intros Hc Ha. unfold applyChatResponse.
  rewrite !decide_False by done. repeat split.
  unfold final_text. by destruct (output_text data) as [[|c r]|].
Qed.

(** C5: a response is handled by exactly one branch, chosen in the order
    consent, approvals, final output. A response that declares consent is
    handled as consent whatever else it carries: an approval batch riding
    along is not stored, and the stored batch, its decisions and its
    pending identifier stay as they were. *)
Theorem C5_branch_priority (data : ChatResponse) (s : AppState) :
  let s' := applyChatResponse data s in
  (status data = Some oauth_consent_required → consent_effects data s s') ∧
  (status data ≠ Some oauth_consent_required →
   status data = Some approval_required → approval_effects data s s') ∧
  (status data ≠ Some oauth_consent_required →
   status data ≠ Some approval_required → final_effects data s s').
Proof.
  cbn zeta. split_and!.
  - apply applyChatResponse_consent.
  - apply applyChatResponse_approval.
  - apply applyChatResponse_final.
Qed.

Lemma C5_branch_priority_witness :
  consent_effects Scenario.consent_with_batch initial
    (applyChatResponse Scenario.consent_with_batch initial)
  ∧ pendingApprovals (applyChatResponse Scenario.consent_with_batch initial) = None.
Proof.
  split.
  - apply (C5_branch_priority Scenario.consent_with_batch initial). reflexivity.
  - reflexivity.
Defined.

(** C6: a final response always appends one assistant message, with the
    response's [output_text], or with the placeholder [(no output_text)]
    when that is missing or empty, and clears the pending batch, the
    decisions, the consent link and both pending identifiers. *)
Theorem C6_final_output (data : ChatResponse) (s : AppState) :
  status data ≠ Some oauth_consent_required →
  status data ≠ Some approval_required →
  let s' := applyChatResponse data s in
  (∃ m, messages s' = messages s ++ [m] ∧ role m = assistant ∧
        text m = match output_text data with
                 | Some (c :: r) => c :: r
                 | _ => js "(no output_text)"
                 end) ∧
  pendingApprovals s' = None ∧
  approvalDecisions s' = ∅ ∧
  oauthConsentLink s' = None ∧
  pendingResponseIdForApproval s' = None ∧
  pendingResponseIdForOauth s' = None.
Proof.
  intros Hc Ha s'.
  destruct (applyChatResponse_final data s Hc Ha) as (Hm & ? & ? & ? & ? & ?).
  split_and!; try done.
  exists (MkMessage assistant (final_text data)). by split_and!.
Qed.

Lemma C6_final_output_witness :
  messages (applyChatResponse (MkChatResponse None None None None None)
              (app (play Scenario.approvals_then_consent boot)))
  = messages (app (play Scenario.approvals_then_consent boot))
    ++ [MkMessage assistant (js "(no output_text)")]
  ∧ oauthConsentLink (applyChatResponse (MkChatResponse None None None None None)
              (app (play Scenario.approvals_then_consent boot))) = None.
Proof.
  destruct (C6_final_output (MkChatResponse None None None None None)
              (app (play Scenario.approvals_then_consent boot)))
    as ((m & Hm & Hr & Ht) & _ & _ & Hl & _); [done | done |].
  split; [| exact Hl].
  rewrite Hm. destruct m as [ro tx]. cbn in Hr, Ht. by rewrite Hr, Ht.
Defined.

(** ** Frame lemmas for the handlers *)

Lemma handler_start_frame h s s1 b :
  handler_start h s = Some (s1, b) →
  chatLoading s = false ∧ chatLoading s1 = true ∧
  oauthConsentLink s1 = oauthConsentLink s ∧
  pendingApprovals s1 = pendingApprovals s ∧
  previousResponseId s1 = previousResponseId s.
Proof.
  destruct h; cbn [handler_start];
    unfold sendMessage_start, resumeAfterOauthConsent_start,
      submitApprovals_start;
    intros Hst; case_match eqn:Hg; simplify_eq;
    repeat (apply orb_false_elim in Hg as [Hg ?]); done.
Qed.

Lemma tryGetTokenSilent_frame env s :
  let s1 := (tryGetTokenSilent env s).1 in
  oauthConsentLink s1 = oauthConsentLink s ∧
  pendingApprovals s1 = pendingApprovals s ∧
  chatLoading s1 = chatLoading s ∧
  conversation s1 = conversation s ∧
  chatInput s1 = chatInput s ∧ agentName s1 = agentName s.
Proof.
  unfold tryGetTokenSilent.
  destruct (has_account env); [|done]. by destruct (silent env).
Qed.

Lemma postChat_frame token0 env b s s1 r reqs :
  postChat token0 env b s = (s1, r, reqs) →
  conversation s1 = conversation s ∧ chatLoading s1 = chatLoading s ∧
  chatInput s1 = chatInput s ∧ agentName s1 = agentName s.
Proof.
  unfold postChat.
  pose proof (tryGetTokenSilent_frame env s) as (_ & _ & ? & ? & ? & ?).
  destruct (truthy token0); [|destruct (tryGetTokenSilent env s) as [s0 token]];
    destruct (negb (truthy _)); try destruct (fetch env);
    by intros [= <- _ _].
Qed.

Lemma play_invariant (P : Config → Prop) :
  (∀ e c, P c → P (step e c)) → ∀ es c, P c → P (play es c).
Proof.
  intros Hstep es. induction es as [|e es IH]; intros c Hc; [done|].
  cbn. apply IH, Hstep, Hc.
Qed.

(** ** At most one blocking mode *)

Lemma applyChatResponse_modes data s :
  let s' := applyChatResponse data s in
  (status data = Some oauth_consent_required ∧
   oauthConsentLink s' = or_null (consent_link data) ∧
   pendingApprovals s' = pendingApprovals s)
  ∨ (status data = Some approval_required ∧
     pendingApprovals s' = Some (default [] (approval_requests data)) ∧
     oauthConsentLink s' = oauthConsentLink s)
  ∨ (oauthConsentLink s' = None ∧ pendingApprovals s' = None).
Proof.
  cbn zeta.
  destruct (decide (status data = Some oauth_consent_required)) as [Hc|Hc].
  { left. destruct (applyChatResponse_consent data s Hc) as (?&?&?&?&?). done. }
  destruct (decide (status data = Some approval_required)) as [Ha|Ha].
  { right; left.
    destruct (applyChatResponse_approval data s Hc Ha) as (?&?&?&?&?). done. }
  right; right.
  destruct (applyChatResponse_final data s Hc Ha) as (?&?&?&?&?&?). done.
Qed.

Lemma one_blocking_mode_ext s s' :
  oauthConsentLink s' = oauthConsentLink s →
  pendingApprovals s' = pendingApprovals s →
  one_blocking_mode s' = one_blocking_mode s.
Proof.
  unfold one_blocking_mode, consent_live, approvals_pending, batch_length.
  by intros -> ->.
Qed.

Lemma one_blocking_mode_cleared s :
  oauthConsentLink s = None → one_blocking_mode s = true.
Proof. unfold one_blocking_mode, consent_live. by intros ->. Qed.

Lemma call_modes h c :
  oauthConsentLink (app (call h c)) = oauthConsentLink (app c) ∧
  pendingApprovals (app (call h c)) = pendingApprovals (app c).
Proof.
  unfold call. destruct (handler_start h (app c)) as [[s1 b]|] eqn:Hst; [|done].
  apply handler_start_frame in Hst as (_ & _ & ? & ? & _). done.
Qed.

Lemma step_one_blocking_mode e c :
  one_blocking_mode (app c) = true → crosses e c = false →
  one_blocking_mode (app (step e c)) = true.
Proof.
  intros Hone Hx.
  assert (Hcall : ∀ h, one_blocking_mode (app (call h c)) = true).
  { intros h. rewrite <- Hone. apply one_blocking_mode_ext; apply call_modes. }
  destruct e; cbn [step].
  - rewrite <- Hone. by apply one_blocking_mode_ext.
  - rewrite <- Hone. apply one_blocking_mode_ext; apply tryGetTokenSilent_frame.
  - destruct (input_disabled (app c)); [done|]. rewrite <- Hone.
    by apply one_blocking_mode_ext.
  - by destruct (input_disabled (app c)).
  - by destruct (send_disabled (app c)).
  - by destruct (consent_shown (app c) && negb (chatLoading (app c))).
  - case_match; [|done]. rewrite <- Hone. by apply one_blocking_mode_ext.
  - by destruct (approvals_shown (app c) && negb (chatLoading (app c))).
  - case_match; [|done]. rewrite <- Hone. by apply one_blocking_mode_ext.
  - destruct (chatLoading (app c)); [done|]. by apply one_blocking_mode_cleared.
  - by apply one_blocking_mode_cleared.
  - destruct (needsConsent (app c)); [|done]. rewrite <- Hone.
    by apply one_blocking_mode_ext.
  - (* a request settles *)
    unfold arrive. unfold crosses, applied in Hx.
    destruct (inflight c) as [f|]; [|done]. unfold settle.
    destruct (postChat (closure_token f) env (body f) (app c))
      as [[s1 r] reqs] eqn:Hp.
    apply postChat_frame in Hp as (Hconv & _). injection Hconv as _ _ Hpa _ _ Hl _.
    cbn [app]. destruct r as [e|msg|data|thrown].
    4: { rewrite <- Hone. by apply one_blocking_mode_ext. }
    + rewrite <- Hone. by apply one_blocking_mode_ext.
    + rewrite <- Hone. by apply one_blocking_mode_ext.
    + destruct (applyChatResponse_modes data s1)
        as [(Hs & Hl' & Hpa')|[(Hs & Hpa' & Hl')|(Hl' & _)]].
      * rewrite (bool_decide_eq_true_2 _ Hs) in Hx.
        unfold one_blocking_mode, consent_live, approvals_pending, batch_length
          in *. cbn. rewrite Hl', Hpa', Hpa.
        apply orb_false_elim in Hx as [Hx _]. cbn in Hx.
        unfold or_null. destruct (truthy (consent_link data)); [|done].
        cbn in Hx. rewrite Hx. apply negb_true_iff, andb_false_r.
      * rewrite (bool_decide_eq_true_2 _ Hs) in Hx.
        unfold one_blocking_mode, consent_live, approvals_pending, batch_length
          in *. cbn. rewrite Hl', Hpa', Hl. cbn.
        apply orb_false_elim in Hx as [_ Hx]. cbn in Hx.
        destruct (bool_decide (0 < length (default [] (approval_requests data))));
          [|apply negb_true_iff, andb_false_r].
        cbn in Hx. by rewrite Hx.
      * by apply one_blocking_mode_cleared.
Qed.

(** C2, as stated, fails: a batch is approved and submitted, the agent
    answers with a consent link, and the link is stored next to the batch,
    which nothing has cleared. *)
Lemma C2_both_modes_counterexample :
  let s := app (play Scenario.approvals_then_consent boot) in
  consent_live s = true ∧ approvals_pending s = true ∧
  one_blocking_mode s = false.
Proof. by vm_compute. Qed.

(** C2, amended: from the initial state, at most one of the two blocking
    modes is active after every sequence of user actions and responses in
    which no consent link is delivered while a batch is pending and no
    non-empty batch is delivered while a consent link is stored. *)
Theorem C2_one_blocking_mode_amended (es : list Event) :
  uncrossed es boot = true →
  one_blocking_mode (app (play es boot)) = true.
Proof.
  assert (Hgen : ∀ es c, one_blocking_mode (app c) = true →
            uncrossed es c = true → one_blocking_mode (app (play es c)) = true).
  { clear es. induction es as [|e es IH]; intros c Hone Hun; [done|].
    cbn in Hun. apply andb_prop in Hun as [Hx Hun].
    apply negb_true_iff in Hx. cbn. apply IH; [|done].
    by apply step_one_blocking_mode. }
  apply Hgen. reflexivity.
Qed.

Lemma C2_one_blocking_mode_amended_witness :
  uncrossed Scenario.to_approvals boot = true ∧
  one_blocking_mode (app (play Scenario.to_approvals boot)) = true.
Proof.
  split; [by vm_compute|].
  apply (C2_one_blocking_mode_amended Scenario.to_approvals). by vm_compute.
Defined.

(** ** The stored consent link is [null] or non-empty *)

Lemma or_null_idem x : or_null (or_null x) = or_null x.
Proof. by destruct x as [[|c r]|]. Qed.

Lemma link_normal_ext s s' :
  oauthConsentLink s' = oauthConsentLink s → link_normal s → link_normal s'.
Proof. unfold link_normal. by intros ->. Qed.

Lemma step_link_normal e c : link_normal (app c) → link_normal (app (step e c)).
Proof.
  intros Hn.
  assert (Hcall : ∀ h, link_normal (app (call h c))).
  { intros h. eapply link_normal_ext; [apply call_modes | done]. }
  destruct e; cbn [step].
  - done.
  - eapply link_normal_ext; [apply tryGetTokenSilent_frame|done].
  - by destruct (input_disabled (app c)).
  - by destruct (input_disabled (app c)).
  - by destruct (send_disabled (app c)).
  - by destruct (consent_shown (app c) && negb (chatLoading (app c))).
  - by case_match.
  - by destruct (approvals_shown (app c) && negb (chatLoading (app c))).
  - by case_match.
  - by destruct (chatLoading (app c)).
  - done.
  - by destruct (needsConsent (app c)).
  - unfold arrive. destruct (inflight c) as [f|]; [|done]. unfold settle.
    destruct (postChat (closure_token f) env (body f) (app c))
      as [[s1 r] reqs] eqn:Hp.
    apply postChat_frame in Hp as (Hconv & _). injection Hconv as _ _ _ _ _ Hl _.
    cbn [app]. destruct r as [e|msg|data|thrown];
      [by eapply link_normal_ext|by eapply link_normal_ext|
      |by eapply link_normal_ext].
    unfold link_normal. cbn.
    destruct (applyChatResponse_modes data s1)
      as [(_ & -> & _)|[(_ & _ & ->)|(-> & _)]].
    + by rewrite or_null_idem.
    + by rewrite Hl.
    + done.
Qed.

Lemma reachable_link_normal es : link_normal (app (play es boot)).
Proof. apply (play_invariant (λ c, link_normal (app c))); [apply step_link_normal|done]. Qed.

Lemma consent_live_disables_input s :
  link_normal s → consent_live s = true → input_disabled s = true.
Proof.
  unfold link_normal, consent_live, input_disabled, or_null.
  intros Hn Hl. apply bool_decide_eq_true_1 in Hl.
  destruct (truthy (oauthConsentLink s)); [|congruence].
  by rewrite orb_true_r.
Qed.

(** ** Chat input while a detour is open *)

(** C3, as stated, fails: with a batch of one approval request pending and
    no consent link, a new question typed in the input goes through on
    Enter: the user message is appended, and the request is posted when
    it settles. *)
Lemma C3_send_during_approvals_counterexample :
  let c := play (Scenario.to_approvals ++ [TypeInput (js "And the closed ones?")])
             boot in
  approvals_pending (app c) = true ∧
  ¬ submission_rejected c ∧
  messages (app (step PressEnter c))
    = messages (app c) ++ [MkMessage user (js "And the closed ones?")] ∧
  message <$> sent (play [PressEnter;
                          Settle (Scenario.answers (FetchOk Scenario.final_with_id))] c)
    = [Some (js "What are my open issues?"); Some (js "And the closed ones?")].
Proof.
  cbn zeta. split_and!; [by vm_compute| |by vm_compute|by vm_compute].
  intros Hrej. destruct (Hrej PressEnter) as [_ Hin]; [constructor|].
  revert Hin. vm_compute. discriminate.
Qed.

(** C3, amended: whenever a consent link is stored, the chat input and the
    Send button are disabled, so Enter and Send change nothing: no user
    message is appended and no request is issued. *)
Theorem C3_consent_blocks_chat_amended (es : list Event) :
  let c := play es boot in
  consent_live (app c) = true →
  step PressEnter c = c ∧ step ClickSend c = c.
Proof.
  intros c Hlive.
  pose proof (consent_live_disables_input (app c)
                (reachable_link_normal es) Hlive) as Hdis.
  cbn [step]. unfold send_disabled. by rewrite Hdis.
Qed.

Lemma C3_consent_blocks_chat_amended_witness :
  consent_live (app (play Scenario.approvals_then_consent boot)) = true ∧
  step PressEnter (play Scenario.approvals_then_consent boot)
    = play Scenario.approvals_then_consent boot ∧
  step ClickSend (play Scenario.approvals_then_consent boot)
    = play Scenario.approvals_then_consent boot.
Proof.
  split; [by vm_compute|].
  apply (C3_consent_blocks_chat_amended Scenario.approvals_then_consent).
  by vm_compute.
Defined.

(** ** Reset and the request in flight *)

Lemma step_inflight_loading e c :
  (is_Some (inflight c) → chatLoading (app c) = true) →
  is_Some (inflight (step e c)) → chatLoading (app (step e c)) = true.
Proof.
  intros Hinv.
  assert (Hcall : ∀ h, is_Some (inflight (call h c)) →
                       chatLoading (app (call h c)) = true).
  { intros h. unfold call.
    destruct (handler_start h (app c)) as [[s1 b]|] eqn:Hst; [|done].
    apply handler_start_frame in Hst as (_ & ? & _). done. }
  destruct e; cbn [step].
  - exact Hinv.
  - cbn. intros Hf. rewrite <- (Hinv Hf). apply tryGetTokenSilent_frame.
  - destruct (input_disabled (app c)); exact Hinv.
  - destruct (input_disabled (app c)); [exact Hinv|apply Hcall].
  - destruct (send_disabled (app c)); [exact Hinv|apply Hcall].
  - destruct (consent_shown (app c) && negb (chatLoading (app c)));
      [apply Hcall|exact Hinv].
  - case_match; exact Hinv.
  - destruct (approvals_shown (app c) && negb (chatLoading (app c)));
      [apply Hcall|exact Hinv].
  - case_match; exact Hinv.
  - destruct (chatLoading (app c)) eqn:Hl; [done|].
    cbn. intros Hf. by rewrite Hinv in Hl.
  - exact Hinv.
  - destruct (needsConsent (app c)); exact Hinv.
  - unfold arrive. destruct (inflight c) as [f|] eqn:Hf; [|by rewrite Hf].
    destruct (settle _ _ _ _ _). cbn. by intros [? ?].
Qed.

Lemma reachable_inflight_loading es :
  is_Some (inflight (play es boot)) → chatLoading (app (play es boot)) = true.
Proof.
  apply (play_invariant
           (λ c, is_Some (inflight c) → chatLoading (app c) = true));
    [apply step_inflight_loading|]. by intros [? ?].
Qed.

(** C9, as stated, fails: with a token at hand a message is on its way;
    the user signs out, which empties the session without waiting for
    the request; the response that settles afterwards is applied to the
    emptied session: its text enters the empty transcript and its
    identifier becomes the chain token. *)
Lemma C9_late_response_counterexample :
  let c := play Scenario.waiting_with_token boot in
  let env := Scenario.answers (FetchOk Scenario.final_with_id) in
  is_Some (inflight c) ∧
  messages (app (step ClickSignOut c)) = [] ∧
  previousResponseId (app (step ClickSignOut c)) = None ∧
  ¬ late_response_discarded env c ∧
  messages
    (app (play (Scenario.waiting_with_token ++ [ClickSignOut; Settle env]) boot))
    = [MkMessage assistant (js "Hello")] ∧
  previousResponseId
    (app (play (Scenario.waiting_with_token ++ [ClickSignOut; Settle env]) boot))
    = Some (js "resp_1").
Proof.
  cbn zeta.
  split_and!; [by eexists|by vm_compute|by vm_compute| |by vm_compute|by vm_compute].
  intros (Hm & _). revert Hm. vm_compute. discriminate.
Qed.

(** C9, amended: while a request is in flight the New chat button is
    disabled: clicking it changes nothing, so New chat cannot reset the
    session before the response has been applied. (Sign out is not held
    back, and responses carry no session generation: whatever settles is
    applied to the state that is current at that moment.) *)
Theorem C9_no_reset_in_flight_amended (es : list Event) :
  let c := play es boot in
  is_Some (inflight c) → step ClickNewChat c = c.
Proof.
  intros c Hf. subst c. cbn [step].
  by rewrite (reachable_inflight_loading es Hf).
Qed.

Lemma C9_no_reset_in_flight_amended_witness :
  is_Some (inflight (play Scenario.waiting boot)) ∧
  step ClickNewChat (play Scenario.waiting boot) = play Scenario.waiting boot.
Proof.
  split; [by eexists|].
  apply (C9_no_reset_in_flight_amended Scenario.waiting). by eexists.
Defined.

(** ** Submitting an empty batch *)

(** C4, as stated, fails: the agent asks for approval with an empty batch;
    the batch is stored with its response identifier, and
    [submitApprovals] then returns at its guard without posting. *)
Lemma C4_empty_batch_counterexample :
  let s := app (play [ TypeInput (js "hi"); PressEnter;
                       Settle (Scenario.answers (FetchOk Scenario.empty_batch)) ]
                  boot) in
  let env := Scenario.answers (FetchOk Scenario.final_with_id) in
  pendingApprovals s = Some [] ∧
  pendingResponseIdForApproval s = Some (js "resp_3") ∧
  (submitApprovals env s).2 = [] ∧
  ¬ sends_empty_approvals env s.
Proof.
  cbn zeta. split_and!; [by vm_compute..|].
  intros (req & Hreq & _). revert Hreq. vm_compute. discriminate.
Qed.

(** C4, amended: when the pending batch has no items (or there is no
    batch), [submitApprovals] is a no-op: nothing is posted and the state
    is unchanged. *)
Theorem C4_empty_batch_amended (env : Env) (s : AppState) :
  batch_length s = 0 → submitApprovals env s = (s, []).
Proof.
  intros Hlen. unfold submitApprovals, handle. cbn [handler_start].
  unfold submitApprovals_start. by rewrite bool_decide_eq_true_2.
Qed.

Lemma C4_empty_batch_amended_witness :
  pendingApprovals Scenario.empty_batch_stored = Some [] ∧
  pendingResponseIdForApproval Scenario.empty_batch_stored = Some (js "resp_3") ∧
  chatLoading Scenario.empty_batch_stored = false ∧
  submitApprovals (Scenario.answers (FetchOk Scenario.final_with_id))
    Scenario.empty_batch_stored
  = (Scenario.empty_batch_stored, []).
Proof.
  split_and!; [by vm_compute..|].
  apply (C4_empty_batch_amended _ Scenario.empty_batch_stored).
  by vm_compute.
Defined.

(** ** [trim] *)

Lemma blank_nil : blank [].
Proof. constructor. Qed.

Lemma blank_cons c v : blank (c :: v) ↔ is_js_space c = true ∧ blank v.
Proof. unfold blank. by rewrite Forall_cons. Qed.

Lemma trimStart_decomp s : ∃ pre, s = pre ++ trimStart s ∧ blank pre.
Proof.
  induction s as [|c r (pre & Hr & Hpre)].
  { exists []. split; [done|apply blank_nil]. }
  cbn. destruct (is_js_space c) eqn:Hc.
  - exists (c :: pre). split; [by rewrite Hr at 1|by apply blank_cons].
  - exists []. split; [done|apply blank_nil].
Qed.

Lemma trimStart_head s c : head (trimStart s) = Some c → is_js_space c = false.
Proof.
  induction s as [|d r IH]; [done|]. cbn.
  destruct (is_js_space d) eqn:Hd; [done|]. cbn. by intros [= <-].
Qed.

Lemma trimStart_nil s : trimStart s = [] ↔ blank s.
Proof.
  induction s as [|c r IH]; [split; [intros; apply blank_nil|done]|].
  cbn. rewrite blank_cons. destruct (is_js_space c) eqn:Hc.
  - rewrite IH. split; [by split|by intros [_ ?]].
  - split; [done|by intros [? _]].
Qed.

Lemma trimStart_keeps s c r : is_js_space c = false → trimStart (s ++ c :: r) ≠ [].
Proof.
  intros Hc Hnil. apply trimStart_nil in Hnil.
  apply Forall_app in Hnil as [_ Hnil]. inversion Hnil; congruence.
Qed.

Lemma blank_reverse s : blank (reverse s) ↔ blank s.
Proof. unfold blank. by rewrite Forall_reverse. Qed.

Lemma trimEnd_decomp s : ∃ post, s = trimEnd s ++ post ∧ blank post.
Proof.
  unfold trimEnd. destruct (trimStart_decomp (reverse s)) as (pre & Hs & Hpre).
  exists (reverse pre). split; [|by apply blank_reverse].
  rewrite <- reverse_app, <- Hs. by rewrite reverse_involutive.
Qed.

Lemma trimEnd_last s c : last (trimEnd s) = Some c → is_js_space c = false.
Proof. unfold trimEnd. rewrite last_reverse. apply trimStart_head. Qed.

Lemma trimEnd_head c r : is_js_space c = false → head (trimEnd (c :: r)) = Some c.
Proof.
  intros Hc. unfold trimEnd. rewrite reverse_cons.
  destruct (trimStart_decomp (reverse r ++ [c])) as (pre & Hs & Hpre).
  pose proof (trimStart_keeps (reverse r) c [] Hc) as Hne.
  destruct (trimStart (reverse r ++ [c])) as [|d l] eqn:Ht using rev_ind; [done|].
  clear IHl. rewrite app_assoc in Hs. apply app_inj_tail in Hs as [_ ->].
  by rewrite reverse_snoc.
Qed.

Lemma trim_spec v : trimmed_of v (trim v).
Proof.
  unfold trimmed_of, trim.
  destruct (trimStart_decomp v) as (pre & Hv & Hpre).
  destruct (trimEnd_decomp (trimStart v)) as (post & Ht & Hpost).
  split_and!.
  - exists pre, post. split_and!; [|done..]. by rewrite <- Ht.
  - destruct (trimStart v) as [|c r] eqn:Hs; [done|].
    assert (is_js_space c = false) as Hc
      by (apply (trimStart_head v); by rewrite Hs).
    rewrite (trimEnd_head c r Hc). by intros ? [= <-].
  - apply trimEnd_last.
Qed.

Lemma trim_nil v : trim v = [] ↔ blank v.
Proof.
  split.
  - intros Hnil. destruct (trim_spec v) as ((pre & post & Hv & ? & ?) & _).
    rewrite Hnil in Hv. rewrite Hv. by apply Forall_app.
  - intros Hb. unfold trim. apply trimStart_nil in Hb. by rewrite Hb.
Qed.

(** ** What [settle] can do *)

Lemma settle_sent h token0 env b s :
  (settle h token0 env b s).2 = [] ∨ (settle h token0 env b s).2 = [b].
Proof.
  unfold settle, postChat, tryGetTokenSilent.
  repeat case_match; simplify_eq; cbn; auto.
Qed.

Lemma settle_sent_token h token0 env b s :
  truthy token0 = true → (settle h token0 env b s).2 = [b].
Proof.
  intros Htok. unfold settle, postChat. rewrite Htok. cbn. rewrite Htok. cbn.
  by destruct (fetch env).
Qed.

Lemma applyChatResponse_messages data s :
  messages s `prefix_of` messages (applyChatResponse data s).
Proof.
  destruct (decide (status data = Some oauth_consent_required)) as [Hc|Hc].
  { destruct (applyChatResponse_consent data s Hc) as (_&_&->&_).
    by apply prefix_app_r. }
  destruct (decide (status data = Some approval_required)) as [Ha|Ha].
  { by destruct (applyChatResponse_approval data s Hc Ha) as (_&_&->&_). }
  destruct (applyChatResponse_final data s Hc Ha) as (->&_).
  by apply prefix_app_r.
Qed.

Lemma settle_messages h token0 env b s :
  messages s `prefix_of` messages (settle h token0 env b s).1.
Proof.
  unfold settle.
  destruct (postChat token0 env b s) as [[s1 r] reqs] eqn:Hp.
  apply postChat_frame in Hp as (Hconv & _). injection Hconv as <- _ _ _ _ _ _.
  destruct r; cbn; [done|done|apply applyChatResponse_messages|done].
Qed.

(** ** The guard of [sendMessage] *)

Lemma sendMessage_start_guard s :
  blank (chatInput s) ∨ chatLoading s = true → sendMessage_start s = None.
Proof.
  unfold sendMessage_start. intros [Hb%trim_nil | ->].
  - by rewrite Hb.
  - by rewrite orb_true_r.
Qed.

Lemma sendMessage_start_open s :
  ¬ blank (chatInput s) → chatLoading s = false →
  sendMessage_start s =
    Some (run [ setError None; setChatInput []; setChatLoading true;
                setMessages (λ m, m ++ [MkMessage user (trim (chatInput s))]) ] s,
          MkChatRequest (agentName s) (Some (trim (chatInput s)))
            (previousResponseId s) None None).
Proof.
  intros Hb Hl. unfold sendMessage_start. rewrite Hl.
  destruct (trim (chatInput s)) as [|c r] eqn:Ht; [|done].
  by apply trim_nil in Ht.
Qed.

(** C10: with an input that is empty or all whitespace, or while a request
    is in flight, [sendMessage] does nothing at all: the state is returned
    as it was and nothing is posted. With any other input the user message
    that is appended, and the [message] of the one request that can be
    posted, is the input without its leading and trailing whitespace. *)
Theorem C10_sendMessage_guard (env : Env) (s : AppState) :
  (blank (chatInput s) ∨ chatLoading s = true → sendMessage env s = (s, [])) ∧
  (¬ blank (chatInput s) → chatLoading s = false →
   ∃ s1 req,
     sendMessage_start s = Some (s1, req) ∧
     trimmed_of (chatInput s) (trim (chatInput s)) ∧
     trim (chatInput s) ≠ [] ∧
     messages s1 = messages s ++ [MkMessage user (trim (chatInput s))] ∧
     message req = Some (trim (chatInput s)) ∧
     (∀ r, r ∈ (sendMessage env s).2 → r = req) ∧
     (truthy (accessToken s) = true → (sendMessage env s).2 = [req]) ∧
     messages s ++ [MkMessage user (trim (chatInput s))]
       `prefix_of` messages (sendMessage env s).1).
Proof.
  split.
  - intros Hg. unfold sendMessage, handle. cbn [handler_start].
    by rewrite sendMessage_start_guard.
  - intros Hb Hl. eexists _, _. split; [by apply sendMessage_start_open|].
    unfold sendMessage, handle. cbn [handler_start].
    rewrite sendMessage_start_open by done.
    split_and!; try done.
    + apply trim_spec.
    + by rewrite trim_nil.
    + intros r Hr.
      destruct (settle_sent HSend (accessToken s) env
                  (MkChatRequest (agentName s) (Some (trim (chatInput s)))
                     (previousResponseId s) None None)
                  (run [ setError None; setChatInput []; setChatLoading true;
                         setMessages
                           (λ m, m ++ [MkMessage user (trim (chatInput s))]) ] s))
        as [Hs|Hs]; rewrite Hs in Hr.
      * by apply elem_of_nil in Hr.
      * by apply list_elem_of_singleton in Hr.
    + apply settle_sent_token.
    + apply (settle_messages HSend).
Qed.

Lemma C10_sendMessage_guard_witness :
  blank (js "   ") ∧
  sendMessage (Scenario.answers (FetchOk Scenario.final_with_id))
    (setChatInput (js "   ") initial)
  = (setChatInput (js "   ") initial, []).
Proof.
  assert (Hb : blank (js "   ")) by (repeat constructor).
  split; [exact Hb|].
  apply (C10_sendMessage_guard _ (setChatInput (js "   ") initial)).
  left. exact Hb.
Defined.

(** ** A failed send *)

Lemma or_else_nonempty x d : d ≠ [] → or_else x d ≠ [].
Proof. by destruct x as [[|c r]|]. Qed.


Lemma postChat_result token0 env b s s1 r reqs :
  postChat token0 env b s = (s1, r, reqs) →
  match r with
  | Threw e => err_name e = js "TypeError" ∧ fetch env = FetchRejects (err_message e)
  | NotOk err => err ≠ []
  | Ok data => fetch env = FetchOk data
  | OkNull thrown => fetch env = FetchOkNull thrown
  end.
Proof.
  unfold postChat.
  destruct (if truthy token0 then (s, token0) else tryGetTokenSilent env s)
    as [s0 token].
  destruct (negb (truthy token)); [by intros [= _ <- _]|].
  destruct (fetch env) as [reason|code d e|data|thrown]; intros [= _ <- _];
    [done| |done|done].
  by do 2 apply or_else_nonempty.
Qed.




(** ** Approval decisions *)

Lemma deny_loop_lookup (rs : list ApprovalRequest) (m : gmap jsstring bool)
    (k : jsstring) :
  foldl (λ defaults r, obj_assign (id r) false defaults) m rs !! k
  = if decide (k ∈ id <$> rs ∧ k ≠ js "__proto__") then Some false else m !! k.
Proof.
  revert m. induction rs as [|r rs IH]; intros m; cbn [foldl].
  { rewrite decide_False; [done|]. intros [?%elem_of_nil _]. done. }
  rewrite IH. rewrite fmap_cons.
  destruct (decide (k ∈ id <$> rs ∧ k ≠ js "__proto__")) as [[Hin Hk]|Hno].
  - rewrite decide_True; [done|]. split; [by apply list_elem_of_further|done].
  - unfold obj_assign. destruct (decide (id r = js "__proto__")) as [Hp|Hp].
    + rewrite decide_False; [done|]. intros [[->|Hin]%elem_of_cons Hk];
        [done|]. by apply Hno.
    + rewrite lookup_insert. destruct (decide (id r = k)) as [<-|Hne].
      * rewrite decide_True; [done|]. split; [apply list_elem_of_here|done].
      * rewrite decide_False; [done|]. intros [[->|Hin]%elem_of_cons Hk];
          [done|]. by apply Hno.
Qed.

Lemma deny_by_default_lookup (rs : list ApprovalRequest) (r : ApprovalRequest) :
  r ∈ rs → id r ≠ js "__proto__" → deny_by_default rs !! id r = Some false.
Proof.
  intros Hr Hp. unfold deny_by_default. rewrite deny_loop_lookup.
  rewrite decide_True; [done|]. split; [by apply list_elem_of_fmap_2|done].
Qed.

Lemma deny_by_default_keys (rs : list ApprovalRequest) (k : jsstring) :
  is_Some (deny_by_default rs !! k) ↔ k ∈ id <$> rs ∧ k ≠ js "__proto__".
Proof.
  unfold deny_by_default. rewrite deny_loop_lookup.
  destruct (decide (k ∈ id <$> rs ∧ k ≠ js "__proto__")) as [Hin|Hin].
  - split; [done|by eexists].
  - rewrite lookup_empty. split; [by intros [? ?]|done].
Qed.

Lemma toggles_frame (toggles : list (jsstring * bool)) s :
  let s2 := foldl (λ s t, onApprovalChange t.1 t.2 s) s toggles in
  pendingApprovals s2 = pendingApprovals s ∧
  pendingResponseIdForApproval s2 = pendingResponseIdForApproval s ∧
  chatLoading s2 = chatLoading s ∧
  accessToken s2 = accessToken s ∧
  ∀ k, k ∉ toggles.*1 → approvalDecisions s2 !! k = approvalDecisions s !! k.
Proof.
  revert s. induction toggles as [|[k0 v0] ts IH]; intros s; cbn; [done|].
  destruct (IH (onApprovalChange k0 v0 s)) as (-> & -> & -> & -> & Hk).
  split_and!; try done. intros k Hni. rewrite Hk.
  - cbn. apply lookup_insert_ne. intros ->. apply Hni, list_elem_of_here.
  - intros Hin. by apply Hni, list_elem_of_further.
Qed.

(** Reading a decision after a run of checkbox changes: the last change
    made to that checkbox, else what was read before. *)
Lemma toggles_decision (toggles : list (jsstring * bool)) s k :
  decision
    (approvalDecisions (foldl (λ s t, onApprovalChange t.1 t.2 s) s toggles)) k
  = foldl (λ choice t, if decide (t.1 = k) then t.2 else choice)
      (decision (approvalDecisions s) k) toggles.
Proof.
  revert s. induction toggles as [|[k0 v0] ts IH]; intros s; [done|].
  cbn [foldl]. rewrite IH. f_equal. unfold decision, obj_truthy. cbn.
  rewrite lookup_insert. by destruct (decide (k0 = k)).
Qed.

Lemma last_choice_untouched (toggles : list (jsstring * bool)) k :
  k ∉ toggles.*1 → last_choice toggles k = false.
Proof.
  unfold last_choice. generalize false.
  induction toggles as [|[k0 v0] ts IH]; intros b0 Hni; [done|].
  apply not_elem_of_cons in Hni as [Hne Hni]. cbn in *.
  rewrite decide_False by done. by apply IH.
Qed.

(** C7, as stated, fails. A batch that names the same request twice is
    answered with two entries for that one id, since there is one entry
    per request. And a request whose id is [__proto__] gets no key in the
    decision map, reads as ticked, and goes out as [approve: true]
    without the user having set anything. *)
Lemma C7_entries_counterexample :
  (∃ s1 b entries,
     submitApprovals_start (applyChatResponse Scenario.repeated_batch initial)
       = Some (s1, b) ∧
     approvals b = Some entries ∧
     ¬ every_id_decided_once [Scenario.jira_search; Scenario.jira_search] entries)
  ∧ (∃ s1 b,
       submitApprovals_start (applyChatResponse Scenario.proto_batch initial)
         = Some (s1, b) ∧
       approvals b = Some [MkApprovalEntry (js "__proto__") true]).
Proof.
  split.
  - eexists _, _, _. split_and!; [reflexivity|reflexivity|].
    intros Honce. destruct (Honce (js "apr_1")) as [a Ha];
      [apply list_elem_of_here|]. revert Ha. vm_compute. discriminate.
  - eexists _, _. split; [reflexivity|]. by vm_compute.
Qed.

(** C7, amended: when a non-empty batch arrives every identifier in it
    other than [__proto__] is mapped to deny. Whatever the user then ticks
    or unticks, a submission that posts a request posts, in the order of
    the batch, one entry per request of the batch, each with that
    request's identifier; the entry of an identifier other than
    [__proto__] carries the value the user last gave its checkbox, and
    [approve: false] if the user never touched it. With a response
    identifier on the batch, no request in flight and a token at hand,
    the submission does post. *)
Theorem C7_every_request_decided
    (data : ChatResponse) (batch : list ApprovalRequest)
    (toggles : list (jsstring * bool)) (env : Env) (s : AppState) :
  status data = Some approval_required →
  approval_requests data = Some batch →
  batch ≠ [] →
  let s1 := applyChatResponse data s in
  let s2 := foldl (λ s t, onApprovalChange t.1 t.2 s) s1 toggles in
  (∀ r, r ∈ batch → id r ≠ js "__proto__" →
        approvalDecisions s1 !! id r = Some false) ∧
  (∀ req, req ∈ (submitApprovals env s2).2 →
     ∃ entries,
       approvals req = Some entries ∧
       approval_request_id <$> entries = id <$> batch ∧
       (∀ e, e ∈ entries → approval_request_id e ≠ js "__proto__" →
          approve e = last_choice toggles (approval_request_id e)) ∧
       (∀ e, e ∈ entries → approval_request_id e ≠ js "__proto__" →
          approval_request_id e ∉ toggles.*1 → approve e = false)) ∧
  (truthy (response_id data) = true → chatLoading s = false →
   truthy (accessToken s) = true →
   ∃ req, (submitApprovals env s2).2 = [req]).
Proof.
  intros Hst Hreqs Hne s1 s2.
  assert (Hc : status data ≠ Some oauth_consent_required).
  { rewrite Hst. intros Heq. destruct statuses_differ. congruence. }
  assert (Hs1 : pendingApprovals s1 = Some batch ∧
                pendingResponseIdForApproval s1 = or_null (response_id data) ∧
                approvalDecisions s1 = deny_by_default batch ∧
                chatLoading s1 = chatLoading s ∧
                accessToken s1 = accessToken s).
  { subst s1. unfold applyChatResponse, requests_of.
    rewrite decide_False, decide_True by done. by rewrite Hreqs. }
  destruct Hs1 as (Hpa1 & Hid1 & Hd1 & Hl1 & Htok1).
  destruct (toggles_frame toggles s1) as (Hpa2 & Hid2 & Hl2 & Htok2 & _).
  fold s2 in Hpa2, Hid2, Hl2, Htok2.
  assert (Hdeny : ∀ r, r ∈ batch → id r ≠ js "__proto__" →
                       approvalDecisions s1 !! id r = Some false).
  { intros r Hr Hp. rewrite Hd1. by apply deny_by_default_lookup. }
  assert (Hchoice : ∀ r, r ∈ batch → id r ≠ js "__proto__" →
            decision (approvalDecisions s2) (id r) = last_choice toggles (id r)).
  { intros r Hr Hp. subst s2. rewrite toggles_decision.
    unfold last_choice. f_equal. unfold decision, obj_truthy.
    by rewrite (Hdeny r Hr Hp). }
  assert (Hstart : ∀ sa b, submitApprovals_start s2 = Some (sa, b) →
            approvals b = Some ((λ r, MkApprovalEntry (id r)
                                   (decision (approvalDecisions s2) (id r)))
                                <$> batch)).
  { intros sa b. unfold submitApprovals_start. rewrite Hpa2, Hpa1.
    case_match; [done|]. by intros [= _ <-]. }
  split_and!.
  - exact Hdeny.
  - intros req. unfold submitApprovals, handle. cbn [handler_start].
    destruct (submitApprovals_start s2) as [[sa b]|] eqn:Hb;
      [|by intros ?%elem_of_nil].
    intros Hin.
    assert (req = b) as ->.
    { destruct (settle_sent HApprove (accessToken s2) env b sa) as [Hs|Hs];
        rewrite Hs in Hin;
        [by apply elem_of_nil in Hin|by apply list_elem_of_singleton in Hin]. }
    eexists. split; [by apply (Hstart sa)|]. split_and!.
    + by rewrite <- list_fmap_compose.
    + intros e (r & -> & Hr)%list_elem_of_fmap Hp. cbn in *.
      by apply Hchoice.
    + intros e (r & -> & Hr)%list_elem_of_fmap Hp Hni. cbn in *.
      rewrite Hchoice by done. by apply last_choice_untouched.
  - intros Hrid Hload Htok.
    unfold submitApprovals, handle. cbn [handler_start].
    unfold submitApprovals_start at 1. unfold batch_length.
    rewrite Hpa2, Hpa1, Hid2, Hid1, Hl2, Hl1, Hload.
    unfold or_null. rewrite Hrid, Hrid.
    rewrite bool_decide_eq_false_2 by (by destruct batch).
    cbn [negb orb]. eexists. apply settle_sent_token. by rewrite Htok2, Htok1.
Qed.

Lemma C7_every_request_decided_witness :
  ∃ req,
    (submitApprovals (Scenario.answers (FetchOk Scenario.final_with_id))
       (onApprovalChange (js "apr_1") true
          (applyChatResponse Scenario.approval_batch
             (setAccessToken (Some (js "eyJ0")) initial)))).2 = [req] ∧
    approvals req = Some [MkApprovalEntry (js "apr_1") true].
Proof.
  destruct (C7_every_request_decided Scenario.approval_batch
              [Scenario.jira_search] [(js "apr_1", true)]
              (Scenario.answers (FetchOk Scenario.final_with_id))
              (setAccessToken (Some (js "eyJ0")) initial))
    as (_ & Hposted & Hsent); [reflexivity|reflexivity|discriminate|].
  destruct Hsent as [req Hreq]; [reflexivity..|].
  exists req. split; [exact Hreq|].
  destruct (Hposted req) as (entries & -> & Hids & Happrove & _).
  { cbn in Hreq |- *. rewrite Hreq. apply list_elem_of_here. }
  destruct entries as [|[k a] [|e2 rest]]; try discriminate.
  injection Hids as ->. f_equal. f_equal. f_equal.
  apply (Happrove (MkApprovalEntry (js "apr_1") a));
    [apply list_elem_of_here|discriminate].
Defined.

(** * Further properties *)

(** ** The transcript *)

Lemma consent_notice_nonempty : consent_notice ≠ [].
Proof. by vm_compute. Qed.

Lemma final_text_nonempty data : final_text data ≠ [].
Proof. unfold final_text. by destruct (output_text data) as [[|c r]|]. Qed.

Lemma tidy_assistant t : t ≠ [] → tidy_message (MkMessage assistant t).
Proof. by split. Qed.

Lemma tidy_user v : ¬ blank v → tidy_message (MkMessage user (trim v)).
Proof.
  intros Hb. destruct (trim_spec v) as (_ & Hh & Hl).
  split; [cbn; by rewrite trim_nil|]. intros _. split; [exact Hh|exact Hl].
Qed.

Lemma handler_start_messages h s s1 b :
  handler_start h s = Some (s1, b) →
  messages s1 = messages s
  ∨ ∃ m, tidy_message m ∧ messages s1 = messages s ++ [m].
Proof.
  destruct h; cbn [handler_start].
  - intros Hst. right. exists (MkMessage user (trim (chatInput s))).
    unfold sendMessage_start in Hst.
    destruct (trim (chatInput s)) as [|c r] eqn:Ht; [done|].
    destruct (chatLoading s); [done|]. injection Hst as <- _.
    split; [|done]. rewrite <- Ht. apply tidy_user.
    intros Hb%trim_nil. congruence.
  - unfold resumeAfterOauthConsent_start. case_match; [done|].
    intros [= <- _]. by left.
  - unfold submitApprovals_start. case_match; [done|].
    intros [= <- _]. by left.
Qed.

Lemma applyChatResponse_appends data s :
  messages (applyChatResponse data s) = messages s
  ∨ ∃ m, tidy_message m ∧
         messages (applyChatResponse data s) = messages s ++ [m].
Proof.
  destruct (decide (status data = Some oauth_consent_required)) as [Hc|Hc].
  { right. destruct (applyChatResponse_consent data s Hc) as (_&_&->&_).
    eexists. split; [|done]. apply tidy_assistant, consent_notice_nonempty. }
  destruct (decide (status data = Some approval_required)) as [Ha|Ha].
  { left. by destruct (applyChatResponse_approval data s Hc Ha) as (_&_&->&_). }
  right. destruct (applyChatResponse_final data s Hc Ha) as (->&_).
  eexists. split; [|done]. apply tidy_assistant, final_text_nonempty.
Qed.

Lemma settle_appends h token0 env b s :
  messages (settle h token0 env b s).1 = messages s
  ∨ ∃ m, tidy_message m ∧
         messages (settle h token0 env b s).1 = messages s ++ [m].
Proof.
  unfold settle.
  destruct (postChat token0 env b s) as [[s1 r] reqs] eqn:Hp.
  apply postChat_frame in Hp as (Hconv & _). injection Hconv as <- _ _ _ _ _ _.
  destruct r; cbn [fst];
    [by left|by left|apply applyChatResponse_appends|by left].
Qed.

Lemma step_messages e c :
  messages (app (step e c)) = messages (app c)
  ∨ ((e = ClickNewChat ∨ e = ClickSignOut) ∧ messages (app (step e c)) = [])
  ∨ ∃ m, tidy_message m ∧
         messages (app (step e c)) = messages (app c) ++ [m].
Proof.
  assert (Hcall : ∀ h,
    messages (app (call h c)) = messages (app c)
    ∨ ((e = ClickNewChat ∨ e = ClickSignOut) ∧ messages (app (call h c)) = [])
    ∨ ∃ m, tidy_message m ∧
           messages (app (call h c)) = messages (app c) ++ [m]).
  { intros h. unfold call.
    destruct (handler_start h (app c)) as [[s1 b]|] eqn:Hst; [|by left].
    apply handler_start_messages in Hst as [?|?]; auto. }
  destruct e; cbn [step].
  - by left.
  - left. cbn.
    by destruct (tryGetTokenSilent_frame env (app c))
      as (_ & _ & _ & [= -> _ _ _ _ _ _] & _).
  - left. by destruct (input_disabled (app c)).
  - destruct (input_disabled (app c)); [by left|apply Hcall].
  - destruct (send_disabled (app c)); [by left|apply Hcall].
  - destruct (consent_shown (app c) && negb (chatLoading (app c)));
      [apply Hcall|by left].
  - left. by case_match.
  - destruct (approvals_shown (app c) && negb (chatLoading (app c)));
      [apply Hcall|by left].
  - left. by case_match.
  - destruct (chatLoading (app c)); [by left|]. right; left. by split; [left|].
  - right; left. by split; [right|].
  - left. by destruct (needsConsent (app c)).
  - unfold arrive. destruct (inflight c) as [f|]; [|by left].
    destruct (settle_appends (handler f) (closure_token f) env (body f) (app c))
      as [Hm|Hm];
      destruct (settle (handler f) (closure_token f) env (body f) (app c));
      cbn in *; auto.
Qed.

(** X1: the transcript only grows. Over any sequence of events without a
    click on New chat or on Sign out, the transcript at the start is a
    prefix of the transcript at the end: no message is removed, replaced
    or reordered. *)
Theorem transcript_append_only (es : list Event) (c : Config) :
  ClickNewChat ∉ es → ClickSignOut ∉ es →
  messages (app c) `prefix_of` messages (app (play es c)).
Proof.
  revert c. induction es as [|e es IH]; intros c Hno Hout; [done|].
  apply not_elem_of_cons in Hno as [Hne Hno].
  apply not_elem_of_cons in Hout as [Hne' Hout]. cbn.
  etrans; [|by apply IH].
  destruct (step_messages e c) as [->|[[[->| ->] _]|(m & _ & ->)]];
    [done|done|done|by apply prefix_app_r].
Qed.

Lemma transcript_append_only_witness :
  (ClickNewChat ∉ Scenario.approvals_then_consent) ∧
  (ClickSignOut ∉ Scenario.approvals_then_consent) ∧
  (messages (app (play Scenario.to_approvals boot))
   `prefix_of`
   messages (app (play Scenario.approvals_then_consent
                    (play Scenario.to_approvals boot)))).
Proof.
  assert (Hno : ClickNewChat ∉ Scenario.approvals_then_consent).
  { intros Hin.
    repeat (apply elem_of_cons in Hin as [Hin|Hin]; [discriminate|]).
    by apply elem_of_nil in Hin. }
  assert (Hout : ClickSignOut ∉ Scenario.approvals_then_consent).
  { intros Hin.
    repeat (apply elem_of_cons in Hin as [Hin|Hin]; [discriminate|]).
    by apply elem_of_nil in Hin. }
  split_and!; [exact Hno|exact Hout|].
  exact (transcript_append_only Scenario.approvals_then_consent
           (play Scenario.to_approvals boot) Hno Hout).
Defined.

(** X2: no bubble is ever empty. In every state reachable from the first
    render each message of the transcript has a non-empty text, and the
    text of a user message neither starts nor ends with whitespace. *)
Theorem transcript_tidy (es : list Event) :
  Forall tidy_message (messages (app (play es boot))).
Proof.
  apply (play_invariant (λ c, Forall tidy_message (messages (app c))));
    [|by constructor].
  intros e c Hc.
  destruct (step_messages e c) as [->|[[_ ->]|(m & Hm & ->)]];
    [done|by constructor|].
  apply Forall_app. split; [done|by constructor].
Qed.

(** ** The decision map and the stored batch *)

Lemma keyed_deny_by_default (rs : list ApprovalRequest) (k : jsstring) :
  (is_Some (deny_by_default rs !! k) → k ∈ id <$> rs) ∧
  (k ∈ id <$> rs → k ≠ js "__proto__" → is_Some (deny_by_default rs !! k)).
Proof.
  split.
  - by intros [? _]%deny_by_default_keys.
  - intros ? ?. by apply deny_by_default_keys.
Qed.

Lemma keyed_empty (k : jsstring) :
  (is_Some ((∅ : gmap jsstring bool) !! k) → k ∈ id <$> default [] None) ∧
  (k ∈ id <$> default [] None → k ≠ js "__proto__" →
   is_Some ((∅ : gmap jsstring bool) !! k)).
Proof.
  rewrite lookup_empty. split; [by intros [? ?]|by intros ?%elem_of_nil].
Qed.

Lemma applyChatResponse_decisions data s :
  let s' := applyChatResponse data s in
  (pendingApprovals s' = pendingApprovals s ∧
   approvalDecisions s' = approvalDecisions s)
  ∨ (pendingApprovals s' = Some (default [] (approval_requests data)) ∧
     approvalDecisions s' = deny_by_default (default [] (approval_requests data)))
  ∨ (pendingApprovals s' = None ∧ approvalDecisions s' = ∅).
Proof. unfold applyChatResponse. repeat case_decide; cbn; auto. Qed.

Lemma keyed_ext s s' :
  pendingApprovals s' = pendingApprovals s →
  approvalDecisions s' = approvalDecisions s →
  keyed s → keyed s'.
Proof. unfold keyed. by intros -> ->. Qed.

Lemma handler_start_decisions h s s1 b :
  handler_start h s = Some (s1, b) →
  pendingApprovals s1 = pendingApprovals s ∧
  approvalDecisions s1 = approvalDecisions s.
Proof.
  destruct h; cbn [handler_start];
    unfold sendMessage_start, resumeAfterOauthConsent_start,
      submitApprovals_start;
    (case_match; [done|]); by intros [= <- _].
Qed.

Lemma step_keyed e c : keyed (app c) → keyed (app (step e c)).
Proof.
  intros Hk.
  assert (Hcall : ∀ h, keyed (app (call h c))).
  { intros h. unfold call.
    destruct (handler_start h (app c)) as [[s1 b]|] eqn:Hst; [|done].
    apply handler_start_decisions in Hst as [? ?]. by eapply keyed_ext. }
  destruct e; cbn [step].
  - done.
  - destruct (tryGetTokenSilent_frame env (app c))
      as (_ & _ & _ & [= _ _ ? ? _ _ _] & _).
    by eapply keyed_ext.
  - by destruct (input_disabled (app c)).
  - by destruct (input_disabled (app c)).
  - by destruct (send_disabled (app c)).
  - by destruct (consent_shown (app c) && negb (chatLoading (app c))).
  - destruct (approvals_shown (app c)); [|done]. cbn [andb].
    case_bool_decide as Hrid; [|done].
    intros k. cbn. rewrite lookup_insert. destruct (decide (rid = k)) as [<-|?].
    + split; [done|by eexists].
    + apply Hk.
  - by destruct (approvals_shown (app c) && negb (chatLoading (app c))).
  - case_match; [|done]. intros k. apply keyed_deny_by_default.
  - destruct (chatLoading (app c)); [done|]. intros k. apply keyed_empty.
  - intros k. apply keyed_empty.
  - by destruct (needsConsent (app c)).
  - unfold arrive. destruct (inflight c) as [f|]; [|done]. unfold settle.
    destruct (postChat (closure_token f) env (body f) (app c))
      as [[s1 r] reqs] eqn:Hp.
    apply postChat_frame in Hp as ([= _ _ Hpa Hd _ _ _] & _).
    assert (Hk1 : keyed s1) by by eapply keyed_ext.
    cbn [app]. destruct r as [e|msg|data|thrown]; [done|done| |done].
    destruct (applyChatResponse_decisions data s1)
      as [[Hp' Hd']|[[Hp' Hd']|[Hp' Hd']]]; intros k; cbn; rewrite Hp', Hd'.
    + apply Hk1.
    + apply keyed_deny_by_default.
    + apply keyed_empty.
Qed.

(** X3: in every state reachable from the first render the decision map
    holds decisions only for requests of the stored batch (no decision
    outlives its batch), and holds one for every request of the batch
    whose id is not [__proto__]. *)
Theorem decisions_match_batch (es : list Event) (k : jsstring) :
  let s := app (play es boot) in
  (is_Some (approvalDecisions s !! k) →
   k ∈ id <$> default [] (pendingApprovals s)) ∧
  (k ∈ id <$> default [] (pendingApprovals s) → k ≠ js "__proto__" →
   is_Some (approvalDecisions s !! k)).
Proof.
  revert k. apply (play_invariant (λ c, keyed (app c))); [apply step_keyed|].
  intros k. apply keyed_empty.
Qed.

Lemma decisions_match_batch_witness :
  is_Some (approvalDecisions (app (play Scenario.to_approvals boot))
           !! js "apr_1").
Proof.
  apply (decisions_match_batch Scenario.to_approvals (js "apr_1"));
    [apply list_elem_of_here|discriminate].
Defined.

(** ** One request at a time *)

Lemma step_loading_inflight e c :
  (chatLoading (app c) = true → is_Some (inflight c)) →
  chatLoading (app (step e c)) = true → is_Some (inflight (step e c)).
Proof.
  intros Hinv.
  assert (Hcall : ∀ h, chatLoading (app (call h c)) = true →
                       is_Some (inflight (call h c))).
  { intros h. unfold call.
    destruct (handler_start h (app c)) as [[s1 b]|] eqn:Hst; [|done].
    by eexists. }
  destruct e; cbn [step].
  - exact Hinv.
  - cbn. intros Hl. apply Hinv. rewrite <- Hl. symmetry.
    apply tryGetTokenSilent_frame.
  - destruct (input_disabled (app c)); exact Hinv.
  - destruct (input_disabled (app c)); [exact Hinv|apply Hcall].
  - destruct (send_disabled (app c)); [exact Hinv|apply Hcall].
  - destruct (consent_shown (app c) && negb (chatLoading (app c)));
      [apply Hcall|exact Hinv].
  - case_match; exact Hinv.
  - destruct (approvals_shown (app c) && negb (chatLoading (app c)));
      [apply Hcall|exact Hinv].
  - case_match; exact Hinv.
  - destruct (chatLoading (app c)) eqn:Hl; [by intros _; apply Hinv|]. cbn.
    by rewrite Hl.
  - exact Hinv.
  - destruct (needsConsent (app c)); exact Hinv.
  - unfold arrive. destruct (inflight c) as [f|] eqn:Hf; [|by rewrite Hf].
    unfold settle.
    destruct (postChat (closure_token f) env (body f) (app c)) as [[s1 r] reqs].
    done.
Qed.

Lemma reachable_loading_inflight es :
  chatLoading (app (play es boot)) = true → is_Some (inflight (play es boot)).
Proof.
  apply (play_invariant
           (λ c, chatLoading (app c) = true → is_Some (inflight c)));
    [apply step_loading_inflight|done].
Qed.

(** X4: one request at a time. While a request is awaited, typing in the
    chat input, Enter, Send, I completed sign-in, Submit approvals, Deny
    all and New chat all leave the app exactly as it is; in particular no
    second request can be issued before the first has settled. *)
Theorem controls_dead_in_flight (es : list Event) (e : Event) :
  let c := play es boot in
  is_Some (inflight c) → blocked_in_flight e → step e c = c.
Proof.
  intros c Hf He. subst c.
  pose proof (reachable_inflight_loading es Hf) as Hl.
  destruct e; try done; cbn [step];
    unfold send_disabled, input_disabled; rewrite Hl; cbn [orb negb];
    by rewrite ?andb_false_r.
Qed.

Lemma controls_dead_in_flight_witness :
  is_Some (inflight (play Scenario.waiting boot)) ∧
  step ClickSubmitApprovals (play Scenario.waiting boot)
    = play Scenario.waiting boot.
Proof.
  split; [by eexists|].
  apply (controls_dead_in_flight Scenario.waiting ClickSubmitApprovals);
    [by eexists|exact I].
Defined.

(** X5: Enter and the Send button are the same action: in every state
    they lead to the same state. (The button is also disabled on blank
    input, where [sendMessage] returns at its guard anyway.) *)
Theorem enter_is_send (c : Config) : step PressEnter c = step ClickSend c.
Proof.
  cbn [step]. unfold send_disabled.
  destruct (input_disabled (app c)); [done|]. cbn [orb].
  destruct (truthy (Some (trim (chatInput (app c))))) eqn:Ht; [done|].
  cbn [negb]. unfold call. cbn [handler_start]. unfold sendMessage_start.
  by rewrite Ht.
Qed.

(** X6: New chat, clicked when no request is awaited, always leaves an
    idle session with an empty conversation and no error, whatever went
    before; the agent name, the chat input and the token are kept. *)
Theorem new_chat_clears (es : list Event) :
  let c := play es boot in
  let s' := app (step ClickNewChat c) in
  inflight c = None →
  conversation s' = conversation initial ∧ error s' = None ∧ idle s' ∧
  agentName s' = agentName (app c) ∧ chatInput s' = chatInput (app c) ∧
  accessToken s' = accessToken (app c) ∧ needsConsent s' = needsConsent (app c).
Proof.
  intros c s' Hf. subst s' c. cbn [step].
  destruct (chatLoading (app (play es boot))) eqn:Hl.
  { apply reachable_loading_inflight in Hl as [f Hl]. congruence. }
  by repeat split.
Qed.

Lemma new_chat_clears_witness :
  inflight (play Scenario.approvals_then_consent boot) = None ∧
  messages (app (step ClickNewChat (play Scenario.approvals_then_consent boot)))
    = [].
Proof.
  assert (Hf : inflight (play Scenario.approvals_then_consent boot) = None)
    by by vm_compute.
  split; [exact Hf|].
  destruct (new_chat_clears Scenario.approvals_then_consent Hf) as (Hc & _).
  exact (f_equal (λ x, x.1.1.1.1.1.1) Hc).
Defined.

(** ** Tokens and requests *)

Lemma tryGetTokenSilent_truthy env s :
  truthy (tryGetTokenSilent env s).2
  = has_account env
    && match silent env with Acquired (_ :: _) => true | _ => false end.
Proof.
  unfold tryGetTokenSilent. destruct (has_account env); [|done].
  by destruct (silent env) as [[|c r]| |].
Qed.

Lemma postChat_token_cases (token0 : option jsstring) (env : Env)
    (b : ChatRequest) (s : AppState) :
  if token_resolves token0 env
  then (postChat token0 env b s).2 = [b]
  else (postChat token0 env b s).2 = [] ∧
       (postChat token0 env b s).1.2 = NotOk no_access_token.
Proof.
  unfold token_resolves, postChat.
  destruct (truthy token0) eqn:Ht0; cbn [orb].
  - rewrite Ht0. cbn [negb]. by destruct (fetch env).
  - pose proof (tryGetTokenSilent_truthy env s) as Ht.
    destruct (tryGetTokenSilent env s) as [s1 token]. cbn [snd] in Ht.
    rewrite Ht.
    destruct (has_account env &&
              match silent env with Acquired (_ :: _) => true | _ => false end);
      cbn [negb]; [by destruct (fetch env)|done].
Qed.

(** X7: [postChat] never reaches the network without a token. It hands
    the body to [fetch] exactly when the render's [accessToken] is truthy
    or the silent acquisition returns a non-empty token; otherwise nothing
    is posted and the caller gets [ok: false] with the text
    [No access token (consent required?)]. *)
Theorem postChat_needs_token (token0 : option jsstring) (env : Env)
    (b : ChatRequest) (s : AppState) :
  if token_resolves token0 env
  then (postChat token0 env b s).2 = [b]
  else (postChat token0 env b s).2 = [] ∧
       (postChat token0 env b s).1.2 = NotOk no_access_token.
Proof.
  unfold token_resolves, postChat.
  destruct (truthy token0) eqn:Ht0; cbn [orb].
  - rewrite Ht0. cbn [negb]. by destruct (fetch env).
  - pose proof (tryGetTokenSilent_truthy env s) as Ht.
    destruct (tryGetTokenSilent env s) as [s1 token]. cbn [snd] in Ht.
    rewrite Ht.
    destruct (has_account env &&
              match silent env with Acquired (_ :: _) => true | _ => false end);
      cbn [negb]; [by destruct (fetch env)|done].
Qed.

Lemma postChat_error_none token0 env b s s1 r reqs :
  postChat token0 env b s = (s1, r, reqs) → error s = None →
  token_resolves token0 env = true → error s1 = None.
Proof.
  unfold token_resolves, postChat, tryGetTokenSilent.
  destruct (truthy token0); cbn [orb].
  - intros Hp He _. destruct (negb (truthy token0)); [by injection Hp as <- _ _|].
    by destruct (fetch env); injection Hp as <- _ _.
  - destruct (has_account env); [|done]. cbn [andb negb].
    destruct (silent env) as [[|c r0]| |]; try done.
    intros Hp _ _. cbn in Hp. by destruct (fetch env); injection Hp as <- _ _.
Qed.

Lemma handler_start_error h s s1 b :
  handler_start h s = Some (s1, b) →
  error s1 = None ∧ accessToken s1 = accessToken s.
Proof.
  destruct h; cbn [handler_start];
    unfold sendMessage_start, resumeAfterOauthConsent_start,
      submitApprovals_start;
    (case_match; [done|]); by intros [= <- _].
Qed.

(** X8: what the error banner shows after a request. When a handler has
    passed its guard: without a token the banner shows
    [No access token (consent required?)]; when [fetch] rejects it shows
    the rejection's message ([TypeError] if that is empty); after a
    response that is not [ok] it shows the body's [detail], else its
    [error], else [HTTP] and the status code; after an [ok] response
    whose body is [null] it shows the message of the [TypeError] thrown by
    [applyChatResponse] ([TypeError] if that is empty); after any other
    [ok] response the banner is empty. The handlers' own fallback texts
    are never shown. *)
Theorem error_after_request (h : Handler) (env : Env) (s : AppState) :
  is_Some (handler_start h s) →
  error (handle h env s).1 =
    if token_resolves (accessToken s) env then
      match fetch env with
      | FetchRejects [] => Some (js "TypeError")
      | FetchRejects reason => Some reason
      | FetchNotOk code (Some (c :: r)) _ => Some (c :: r)
      | FetchNotOk code _ (Some (c :: r)) => Some (c :: r)
      | FetchNotOk code _ _ => Some (js "HTTP " ++ js (pretty code))
      | FetchOk _ => None
      | FetchOkNull [] => Some (js "TypeError")
      | FetchOkNull thrown => Some thrown
      end
    else Some no_access_token.
Proof.
  intros [[s1 b] Hst]. unfold handle. rewrite Hst.
  apply handler_start_error in Hst as [He Htok].
  pose proof (postChat_token_cases (accessToken s) env b s1) as Hneed.
  unfold settle.
  destruct (postChat (accessToken s) env b s1) as [[s2 r] reqs] eqn:Hp.
  cbn [fst snd] in *.
  destruct (token_resolves (accessToken s) env) eqn:Hres.
  - pose proof (postChat_error_none _ _ _ _ _ _ _ Hp He Hres) as He2.
    pose proof (postChat_result _ _ _ _ _ _ _ Hp) as Hr.
    destruct r as [e|msg|data|thrown].
    + destruct Hr as [Hn Hf]. rewrite Hf. destruct e as [n m]. cbn in *.
      subst n. by destruct m.
    + unfold postChat in Hp.
      destruct (if truthy (accessToken s) then (s1, accessToken s)
                else tryGetTokenSilent env s1) as [s0 token].
      destruct (negb (truthy token)); [congruence|].
      destruct (fetch env) as [reason|code d e|data|thrown]; [done| |done|done].
      injection Hp as _ <- _. cbn.
      destruct d as [[|c r]|], e as [[|c' r']|]; done.
    + rewrite Hr. cbn. unfold applyChatResponse.
      by repeat case_decide.
    + rewrite Hr. cbn. by destruct thrown.
  - destruct Hneed as [_ ->]. done.
Qed.

Lemma error_after_request_witness :
  error (sendMessage
           (Scenario.answers (FetchNotOk 502 None (Some (js "agent not found"))))
           (setChatInput (js "hi") initial)).1
  = Some (js "agent not found").
Proof.
  apply (error_after_request HSend
           (Scenario.answers (FetchNotOk 502 None (Some (js "agent not found"))))
           (setChatInput (js "hi") initial)).
  by eexists.
Defined.

(** X9: the chain token is threaded into the next request. After any
    response has been applied, a new chat message carries that response's
    identifier as [previous_response_id] ([null] if it had none); after a
    consent-required response so does the continue request, and after an
    approval-required response so do the submitted approvals. *)
Theorem chain_threading (data : ChatResponse) (s : AppState) (h : Handler)
    (s1 : AppState) (b : ChatRequest) :
  handler_start h (applyChatResponse data s) = Some (s1, b) →
  h = HSend
  ∨ (h = HResume ∧ status data = Some oauth_consent_required)
  ∨ (h = HApprove ∧ status data = Some approval_required) →
  previous_response_id b = or_null (response_id data).
Proof.
  intros Hst Hh.
  assert (Hc : status data = Some approval_required →
               status data ≠ Some oauth_consent_required).
  { intros -> Heq. destruct statuses_differ. congruence. }
  destruct Hh as [->|[[-> Hs]|[-> Hs]]]; cbn [handler_start] in Hst.
  - unfold sendMessage_start in Hst. case_match; [done|].
    injection Hst as _ <-. cbn. unfold applyChatResponse.
    by repeat case_decide.
  - unfold resumeAfterOauthConsent_start in Hst. case_match; [done|].
    injection Hst as _ <-. cbn.
    by destruct (applyChatResponse_consent data s Hs) as (_ & -> & _).
  - unfold submitApprovals_start in Hst. case_match; [done|].
    injection Hst as _ <-. cbn.
    by destruct (applyChatResponse_approval data s (Hc Hs) Hs) as (_ & -> & _).
Qed.

Lemma chain_threading_witness :
  ∃ s1 b,
    handler_start HResume (applyChatResponse Scenario.consent initial)
      = Some (s1, b) ∧
    previous_response_id b = Some (js "resp_4").
Proof.
  eexists _, _. split; [reflexivity|].
  eapply (chain_threading Scenario.consent initial HResume);
    [reflexivity|]. right; left. by split.
Defined.

(** ** Detours *)

(** X10: a detour without a response identifier cannot be resumed. If a
    consent-required response brings a link but no [response_id], the
    consent card is shown and the chat input is disabled, yet
    I completed sign-in posts nothing and changes nothing. If an
    approval-required response brings no [response_id], Submit approvals
    posts nothing and changes nothing, whatever is ticked. *)
Theorem detour_without_id (data : ChatResponse) (s : AppState) (env : Env) :
  truthy (response_id data) = false →
  let s' := applyChatResponse data s in
  (status data = Some oauth_consent_required →
   truthy (consent_link data) = true →
   consent_shown s' = true ∧ input_disabled s' = true ∧
   resumeAfterOauthConsent env s' = (s', [])) ∧
  (status data = Some approval_required →
   ∀ toggles : list (jsstring * bool),
     let s2 := foldl (λ s t, onApprovalChange t.1 t.2 s) s' toggles in
     submitApprovals env s2 = (s2, [])).
Proof.
  intros Hid s'. split.
  - intros Hs Hl.
    destruct (applyChatResponse_consent data s Hs) as (Hlink & Hpid & _).
    fold s' in Hlink, Hpid.
    assert (Hshown : consent_shown s' = true).
    { unfold consent_shown. rewrite Hlink. unfold or_null. by rewrite Hl. }
    split_and!; [done| |].
    + unfold input_disabled. fold (consent_shown s'). rewrite Hshown.
      by rewrite orb_true_r.
    + unfold resumeAfterOauthConsent, handle. cbn [handler_start].
      unfold resumeAfterOauthConsent_start. rewrite Hpid.
      unfold or_null. by rewrite Hid.
  - intros Hs toggles s2.
    assert (Hc : status data ≠ Some oauth_consent_required).
    { rewrite Hs. intros Heq. destruct statuses_differ. congruence. }
    destruct (applyChatResponse_approval data s Hc Hs) as (_ & Hpid & _).
    fold s' in Hpid.
    destruct (toggles_frame toggles s') as (_ & Hpid2 & _). fold s2 in Hpid2.
    unfold submitApprovals, handle. cbn [handler_start].
    unfold submitApprovals_start. rewrite Hpid2, Hpid.
    unfold or_null. rewrite Hid. cbn. by rewrite orb_true_r.
Qed.

Lemma detour_without_id_witness :
  resumeAfterOauthConsent (Scenario.answers (FetchOk Scenario.final_with_id))
    (applyChatResponse
       (MkChatResponse (Some oauth_consent_required)
          (Some (js "https://consent.example/start")) None None None) initial)
  = (applyChatResponse
       (MkChatResponse (Some oauth_consent_required)
          (Some (js "https://consent.example/start")) None None None) initial,
     []).
Proof.
  destruct (detour_without_id
              (MkChatResponse (Some oauth_consent_required)
                 (Some (js "https://consent.example/start")) None None None)
              initial (Scenario.answers (FetchOk Scenario.final_with_id)))
    as [Hc _]; [reflexivity|].
  destruct Hc as (_ & _ & Hr); [reflexivity..|exact Hr].
Defined.

(** X11: Deny all overrides whatever was ticked. A submission made right
    after Deny all carries one entry per request of the batch, in order,
    and every entry says [approve: false], except that of a request whose
    id is [__proto__]: Deny all leaves no key for it and it goes out as
    [approve: true]. *)
Theorem deny_all_then_submit (s s1 : AppState) (b : ChatRequest) :
  submitApprovals_start (onDenyAll s) = Some (s1, b) →
  ∃ entries,
    approvals b = Some entries ∧
    approval_request_id <$> entries = id <$> default [] (pendingApprovals s) ∧
    Forall (λ e, approve e = bool_decide (approval_request_id e = js "__proto__"))
      entries.
Proof.
  unfold submitApprovals_start. case_match; [done|]. intros [= _ <-].
  eexists. split; [done|]. cbn. split.
  - by rewrite <- list_fmap_compose.
  - apply Forall_fmap, Forall_forall. intros r Hr.
    change (decision (deny_by_default (default [] (pendingApprovals s))) (id r)
            = bool_decide (id r = js "__proto__")).
    unfold decision, obj_truthy.
    destruct (decide (id r = js "__proto__")) as [Hp|Hp].
    + rewrite (bool_decide_eq_true_2 _ Hp).
      destruct (deny_by_default (default [] (pendingApprovals s)) !! id r)
        eqn:Hl; [|rewrite Hp; by vm_compute].
      assert (is_Some (deny_by_default (default [] (pendingApprovals s)) !! id r))
        as [_ ?]%deny_by_default_keys by by eexists.
      done.
    + rewrite (bool_decide_eq_false_2 _ Hp).
      by rewrite (deny_by_default_lookup _ r Hr Hp).
Qed.

Lemma deny_all_then_submit_witness :
  ∃ s1 b,
    submitApprovals_start
      (onDenyAll
         (onApprovalChange (js "apr_1") true
            (applyChatResponse Scenario.approval_batch initial)))
    = Some (s1, b) ∧
    ∃ entries,
      approvals b = Some entries ∧
      approval_request_id <$> entries = [js "apr_1"] ∧
      Forall (λ e, approve e = bool_decide (approval_request_id e = js "__proto__"))
        entries.
Proof.
  eexists _, _. split; [reflexivity|].
  eapply (deny_all_then_submit
            (onApprovalChange (js "apr_1") true
               (applyChatResponse Scenario.approval_batch initial))).
  reflexivity.
Defined.

(** X12: ticking after the click does not change what is posted. The
    approvals sent are the decisions at the moment Submit approvals was
    clicked: a checkbox changed while the request is awaited leaves the
    posted requests as they would have been. *)
Theorem late_toggle_not_posted (c : Config) (rid : jsstring) (checked : bool)
    (env : Env) :
  sent (play [ClickSubmitApprovals; ToggleApproval rid checked; Settle env] c)
  = sent (play [ClickSubmitApprovals; Settle env] c).
Proof.
  cbn [play foldl].
  set (c1 := step ClickSubmitApprovals c).
  assert (Hsent : ∀ c2, inflight c2 = inflight c1 → sent c2 = sent c1 →
                        sent (arrive env c2) = sent (arrive env c1)).
  { intros c2 Hf Hs. unfold arrive. rewrite Hf.
    destruct (inflight c1) as [f|]; [|done]. unfold settle.
    pose proof (postChat_token_cases (closure_token f) env (body f) (app c2)) as H2.
    pose proof (postChat_token_cases (closure_token f) env (body f) (app c1)) as H1.
    destruct (postChat (closure_token f) env (body f) (app c2)) as [[? ?] r2].
    destruct (postChat (closure_token f) env (body f) (app c1)) as [[? ?] r1].
    cbn [fst snd sent] in *. rewrite Hs. f_equal.
    destruct (token_resolves (closure_token f) env);
      [congruence|destruct H1 as [-> _], H2 as [-> _]; done]. }
  cbn [step]. apply Hsent; by case_match.
Qed.

(** ** A turn that ends with a final answer *)

Lemma postChat_ok token0 env b s data :
  token_resolves token0 env = true → fetch env = FetchOk data →
  (postChat token0 env b s).1.2 = Ok data.
Proof.
  unfold token_resolves, postChat. intros Hres Hf.
  destruct (truthy token0) eqn:Ht0; cbn [orb] in Hres.
  - rewrite Ht0. cbn [negb]. by rewrite Hf.
  - pose proof (tryGetTokenSilent_truthy env s) as Ht.
    destruct (tryGetTokenSilent env s) as [s1 token]. cbn [snd] in Ht.
    rewrite Ht, Hres. cbn [negb]. by rewrite Hf.
Qed.

(** X13: whichever handler issued the request (a new message, the
    continue after consent, or the approvals), once it has passed its
    guard, has a token and is answered with an [ok] response whose body
    is not [null] and is neither consent-required nor approval-required:
    exactly one request is posted, the answer is the last message of the
    transcript, the chain token is the response's identifier, nothing is
    pending, the error banner is empty and the session is idle. (A [null]
    body appends nothing and shows an error instead.) *)
Theorem turn_completes (h : Handler) (env : Env) (s s1 : AppState)
    (b : ChatRequest) (data : ChatResponse) :
  handler_start h s = Some (s1, b) →
  token_resolves (accessToken s) env = true →
  fetch env = FetchOk data →
  status data ≠ Some oauth_consent_required →
  status data ≠ Some approval_required →
  let s' := (handle h env s).1 in
  (handle h env s).2 = [b] ∧
  messages s' = messages s1 ++ [MkMessage assistant (final_text data)] ∧
  previousResponseId s' = or_null (response_id data) ∧
  pendingApprovals s' = None ∧ approvalDecisions s' = ∅ ∧
  oauthConsentLink s' = None ∧
  error s' = None ∧ idle s'.
Proof.
  intros Hst Hres Hf Hc Ha. cbn zeta.
  pose proof (handler_start_error _ _ _ _ Hst) as [He _].
  unfold handle in *. rewrite Hst in *.
  pose proof (postChat_token_cases (accessToken s) env b s1) as Hneed.
  rewrite Hres in Hneed. unfold settle in *.
  destruct (postChat (accessToken s) env b s1) as [[s2 r] reqs] eqn:Hp.
  cbn [fst snd] in *.
  pose proof (postChat_ok (accessToken s) env b s1 data Hres Hf) as Hr.
  rewrite Hp in Hr. cbn [fst snd] in Hr. subst r.
  pose proof (postChat_error_none _ _ _ _ _ _ _ Hp He Hres) as Herr.
  apply postChat_frame in Hp as ([= Hm _ _ _ _ _ _] & _).
  destruct (applyChatResponse_final data s2 Hc Ha) as (Hm' & Hpa & Hd & _ & Hl & _).
  split_and!; try done.
  - cbn. by rewrite Hm', Hm.
  - cbn. unfold applyChatResponse. by repeat case_decide.
  - cbn. rewrite <- Herr. unfold applyChatResponse. by repeat case_decide.
  - unfold idle, consent_live, approvals_pending, batch_length. cbn.
    by rewrite Hl, Hpa.
Qed.

Lemma turn_completes_witness :
  messages
    (handle HSend (Scenario.answers (FetchOk Scenario.final_with_id))
       (setChatInput (js " Hi ") initial)).1
  = [MkMessage user (js "Hi"); MkMessage assistant (js "Hello")].
Proof.
  edestruct (turn_completes HSend
               (Scenario.answers (FetchOk Scenario.final_with_id))
               (setChatInput (js " Hi ") initial)) as (_ & Hm & _);
    [reflexivity|reflexivity|reflexivity|discriminate|discriminate|].
  exact Hm.
Defined.

(** ** [tryGetTokenSilent] *)

(** X14: [tryGetTokenSilent] returns a token exactly when there is an
    account and the silent acquisition hands one out; the token is then
    stored and [needsConsent] cleared. When interaction is required it
    raises [needsConsent] and shows no error. In no case does it touch the
    conversation, the chat input, the agent name or [chatLoading]. *)
Theorem tryGetTokenSilent_outcome (env : Env) (s : AppState) :
  let s' := (tryGetTokenSilent env s).1 in
  (∀ tok, (tryGetTokenSilent env s).2 = Some tok ↔
          has_account env = true ∧ silent env = Acquired tok) ∧
  (∀ tok, (tryGetTokenSilent env s).2 = Some tok →
          accessToken s' = Some tok ∧ needsConsent s' = false ∧
          error s' = None) ∧
  (has_account env = true → silent env = InteractionRequired →
   needsConsent s' = true ∧ error s' = None ∧
   accessToken s' = accessToken s) ∧
  conversation s' = conversation s ∧ chatInput s' = chatInput s ∧
  agentName s' = agentName s ∧ chatLoading s' = chatLoading s.
Proof.
  cbn zeta. split_and!; try apply tryGetTokenSilent_frame.
  - intros tok. unfold tryGetTokenSilent.
    destruct (has_account env), (silent env); cbn;
      (split; [intros Heq|intros [Ha Heq]]);
      try discriminate; by injection Heq as ->.
  - intros tok. unfold tryGetTokenSilent.
    destruct (has_account env); [|done].
    destruct (silent env); first [done|by intros [= ->]].
  - intros Ha Hs. unfold tryGetTokenSilent. by rewrite Ha, Hs.
Qed.

Lemma tryGetTokenSilent_outcome_witness :
  accessToken
    (tryGetTokenSilent (MkEnv true (Acquired (js "eyJ0")) (FetchRejects []))
       initial).1 = Some (js "eyJ0").
Proof.
  destruct (tryGetTokenSilent_outcome
              (MkEnv true (Acquired (js "eyJ0")) (FetchRejects [])) initial)
    as (_ & Hstore & _).
  by destruct (Hstore (js "eyJ0") eq_refl) as (Htok & _).
Defined.

(** ** [decodeJwtPayload] *)

Lemma list_ind3 {A} (P : list A → Prop) :
  P [] → (∀ x, P [x]) → (∀ x y, P [x; y]) →
  (∀ x y z l, P l → P (x :: y :: z :: l)) →
  ∀ l, P l.
Proof.
  intros H0 H1 H2 H3.
  assert (∀ l, P l ∧ (∀ x, P (x :: l)) ∧ (∀ x y, P (x :: y :: l))) as H;
    [|intros l; apply H].
  induction l as [|a l (IH0 & IH1 & IH2)]; [done|].
  split_and!; [apply IH1|intros x; apply IH2|intros x y; apply H3, IH0].
Qed.

Ltac div_lia := zify; Z.to_euclidean_division_equations; lia.

Lemma b64_bytes_sextets bs : bytes bs → b64_bytes (b64_sextets bs) = bs.
Proof.
  unfold bytes. induction bs as [|x|x y|x y z l IH] using list_ind3;
    intros Hb; [done|..].
  - apply Forall_cons in Hb as [? _]. cbn. f_equal. div_lia.
  - apply Forall_cons in Hb as [? [? _]%Forall_cons]. cbn.
    f_equal; [|f_equal]; div_lia.
  - apply Forall_cons in Hb as [? [? [? Hb]%Forall_cons]%Forall_cons].
    cbn [b64_sextets b64_bytes]. rewrite (IH Hb).
    f_equal; [|f_equal; [|f_equal]]; div_lia.
Qed.

Lemma b64_sextets_small bs :
  bytes bs → Forall (λ v, (v < 64)%N) (b64_sextets bs).
Proof.
  unfold bytes. induction bs as [|x|x y|x y z l IH] using list_ind3;
    intros Hb; [by constructor|..].
  - apply Forall_cons in Hb as [? _]. cbn.
    repeat (constructor; [div_lia|]). constructor.
  - apply Forall_cons in Hb as [? [? _]%Forall_cons]. cbn.
    repeat (constructor; [div_lia|]). constructor.
  - apply Forall_cons in Hb as [? [? [? Hb]%Forall_cons]%Forall_cons].
    cbn [b64_sextets]. repeat (constructor; [div_lia|]). by apply IH.
Qed.

Lemma b64_sextets_length bs : length (b64_sextets bs) mod 4 ≠ 1.
Proof.
  induction bs as [|x|x y|x y z l IH] using list_ind3; [done..|].
  cbn [b64_sextets length]. revert IH. generalize (length (b64_sextets l)).
  intros n Hn. replace (S (S (S (S n)))) with (n + 1 * 4) by lia.
  by rewrite Nat.Div0.mod_add.
Qed.

(** What is known of the character of a six-bit value. *)
Lemma b64url_char_facts v :
  (v < 64)%N →
  b64_value (to_base64_alphabet (b64url_char v)) = Some v ∧
  is_ascii_whitespace (to_base64_alphabet (b64url_char v)) = false ∧
  to_base64_alphabet (b64url_char v) ≠ 0x3D%N ∧
  b64url_char v ≠ 0x2E%N.
Proof.
  intros Hv. destruct v as [|p]; [done|].
  do 6 (destruct p as [p|p|]; try done); lia.
Qed.

Lemma filter_all {A} (P : A → Prop) `{∀ x, Decision (P x)} (l : list A) :
  Forall P l → filter P l = l.
Proof.
  induction 1 as [|x l Hx _ IH]; [done|].
  rewrite filter_cons, decide_True by done. by rewrite IH.
Qed.

Lemma strip_padding_plain d :
  Forall (λ c, c ≠ 0x3D%N) d → strip_padding d = d.
Proof.
  intros Hd. unfold strip_padding. case_bool_decide; [|done].
  apply Forall_reverse in Hd.
  destruct (reverse d) as [|c1 r1]; [done|].
  apply Forall_cons in Hd as [Hc _]. by rewrite bool_decide_eq_false_2.
Qed.

Lemma atob_base64url bs :
  bytes bs → atob (to_base64_alphabet <$> base64url bs) = Some bs.
Proof.
  intros Hb. unfold atob, base64url.
  pose proof (b64_sextets_small bs Hb) as Hsmall.
  rewrite <- list_fmap_compose.
  set (chars := to_base64_alphabet ∘ b64url_char <$> b64_sextets bs).
  assert (Hplain : Forall (λ c, is_ascii_whitespace c = false) chars).
  { apply Forall_fmap. eapply Forall_impl; [exact Hsmall|].
    intros v Hv. by apply b64url_char_facts. }
  assert (Hnopad : Forall (λ c, c ≠ 0x3D%N) chars).
  { apply Forall_fmap. eapply Forall_impl; [exact Hsmall|].
    intros v Hv. by apply b64url_char_facts. }
  rewrite (filter_all _ _ Hplain), (strip_padding_plain _ Hnopad).
  rewrite bool_decide_eq_false_2.
  2:{ unfold chars. rewrite length_fmap. apply b64_sextets_length. }
  unfold chars. rewrite mapM_fmap_Forall_Some.
  - cbn. by rewrite b64_bytes_sextets.
  - eapply Forall_impl; [exact Hsmall|]. intros v Hv.
    by apply b64url_char_facts.
Qed.

Lemma split_dot_nonempty s : split_dot s ≠ [].
Proof.
  destruct s as [|c r]; [done|]. cbn. case_bool_decide; [done|].
  by destruct (split_dot r).
Qed.

Lemma split_dot_plain s : 0x2E%N ∉ s → split_dot s = [s].
Proof.
  induction s as [|c r IH]; [done|]. intros [Hc Hr]%not_elem_of_cons.
  cbn. rewrite bool_decide_eq_false_2 by done. by rewrite IH.
Qed.

Lemma split_dot_app s r :
  0x2E%N ∉ s → split_dot (s ++ 0x2E%N :: r) = s :: split_dot r.
Proof.
  induction s as [|c s IH]; [done|]. intros [Hc Hs]%not_elem_of_cons.
  cbn. rewrite bool_decide_eq_false_2 by done. by rewrite IH.
Qed.

Lemma base64url_no_dot bs : bytes bs → 0x2E%N ∉ base64url bs.
Proof.
  intros Hb (v & Hv & Hin)%list_elem_of_fmap.
  pose proof (b64_sextets_small bs Hb) as Hsmall.
  rewrite Forall_forall in Hsmall.
  by destruct (b64url_char_facts v (Hsmall v Hin)) as (_ & _ & _ & Hne).
Qed.

(** X15: the payload of a JWT is recovered. For a token
    [header.payload] or [header.payload.signature...] whose header holds
    no dot and whose payload is the unpadded base64url of the bytes [bs],
    [decodeJwtPayload] hands exactly those bytes, percent-escaped, to
    [decodeURIComponent] and the outcome to [JSON.parse]. *)
Theorem decodeJwtPayload_base64url {Json : Type}
    (decodeURIComponent : jsstring → option jsstring)
    (JSON_parse : jsstring → option Json)
    (header rest : jsstring) (bs : list N) :
  0x2E%N ∉ header →
  bytes bs →
  rest = [] ∨ head rest = Some 0x2E%N →
  decodeJwtPayload decodeURIComponent JSON_parse
    (header ++ 0x2E%N :: base64url bs ++ rest)
  = decodeURIComponent (concat (percent_escape <$> bs)) ≫= JSON_parse.
Proof.
  intros Hh Hb Hrest. unfold decodeJwtPayload.
  rewrite split_dot_app by done.
  assert (split_dot (base64url bs ++ rest) !! 0 = Some (base64url bs)) as Hp.
  { destruct Hrest as [->|Hrest].
    - rewrite app_nil_r, split_dot_plain; [done|by apply base64url_no_dot].
    - destruct rest as [|c r]; [done|]. injection Hrest as ->.
      rewrite split_dot_app; [done|by apply base64url_no_dot]. }
  destruct (split_dot (base64url bs ++ rest)) as [|piece pieces]; [done|].
  injection Hp as ->. cbn. by rewrite atob_base64url.
Qed.

Lemma decodeJwtPayload_base64url_witness :
  decodeJwtPayload (λ s, Some s) (λ s, Some (length s))
    (js "eyJhbGciOiJub25lIn0" ++ 0x2E%N :: base64url [123; 125]%N
       ++ js ".sig")
  = Some 6.
Proof.
  apply (decodeJwtPayload_base64url (λ s, Some s) (λ s, Some (length s))
           (js "eyJhbGciOiJub25lIn0") (js ".sig") [123; 125]%N).
  - apply (bool_decide_unpack _). by vm_compute.
  - by repeat constructor.
  - by right.
Defined.

Lemma split_dot_second header payload rest :
  0x2E%N ∉ header → 0x2E%N ∉ payload →
  rest = [] ∨ head rest = Some 0x2E%N →
  split_dot (header ++ 0x2E%N :: payload ++ rest) !! 1 = Some payload.
Proof.
  intros Hh Hp Hrest. rewrite split_dot_app by done.
  destruct Hrest as [->|Hrest].
  - by rewrite app_nil_r, split_dot_plain.
  - destruct rest as [|c r]; [done|]. injection Hrest as ->.
    by rewrite split_dot_app.
Qed.

Lemma strip_padding_keeps d c :
  c ∈ d → c ≠ 0x3D%N → c ∈ strip_padding d.
Proof.
  intros Hin Hc. unfold strip_padding. case_bool_decide; [|done].
  destruct (reverse d) as [|c1 r1] eqn:Hr; [done|].
  apply (f_equal reverse) in Hr. rewrite reverse_involutive, reverse_cons in Hr.
  subst d. case_bool_decide as H1; [|done]. subst c1.
  apply elem_of_app in Hin as [Hin|Hin%list_elem_of_singleton]; [|done].
  destruct r1 as [|c2 r2]; [done|]. case_bool_decide as H2; [|done]. subst c2.
  rewrite reverse_cons in Hin.
  by apply elem_of_app in Hin as [Hin|Hin%list_elem_of_singleton].
Qed.

Lemma atob_invalid data c :
  c ∈ data → is_ascii_whitespace c = false → c ≠ 0x3D%N →
  b64_value c = None → atob data = None.
Proof.
  intros Hin Hws Hpad Hval. unfold atob. case_bool_decide; [done|].
  rewrite (mapM_None_2 b64_value); [done|].
  apply Exists_exists. exists c. split; [|done].
  apply strip_padding_keeps; [|done]. by apply list_elem_of_filter.
Qed.

(** X16: what [decodeJwtPayload] answers with [null]. A token without a
    dot has no payload segment. A payload segment with a character that
    is neither of the base64 or base64url alphabet, nor ASCII whitespace,
    nor [=], is refused by [atob]. In both cases the result is [null],
    whatever the built-ins would do. *)
Theorem decodeJwtPayload_null {Json : Type}
    (decodeURIComponent : jsstring → option jsstring)
    (JSON_parse : jsstring → option Json) :
  (∀ token, 0x2E%N ∉ token →
     decodeJwtPayload decodeURIComponent JSON_parse token = None) ∧
  (∀ header payload rest c,
     0x2E%N ∉ header → 0x2E%N ∉ payload →
     rest = [] ∨ head rest = Some 0x2E%N →
     c ∈ payload →
     b64_value (to_base64_alphabet c) = None →
     is_ascii_whitespace c = false → c ≠ 0x3D%N →
     decodeJwtPayload decodeURIComponent JSON_parse
       (header ++ 0x2E%N :: payload ++ rest) = None).
Proof.
  split.
  - intros token Hno. unfold decodeJwtPayload.
    by rewrite split_dot_plain.
  - intros header payload rest c Hh Hp Hrest Hin Hval Hws Hpad.
    unfold decodeJwtPayload. rewrite split_dot_second by done. cbn.
    assert (to_base64_alphabet c = c) as Hc.
    { unfold to_base64_alphabet in *.
      repeat case_bool_decide; [by subst..|done]. }
    rewrite (atob_invalid (to_base64_alphabet <$> payload) c); [done| |done..|].
    + rewrite <- Hc. by apply list_elem_of_fmap_2.
    + by rewrite <- Hc.
Qed.

Lemma decodeJwtPayload_null_witness :
  decodeJwtPayload (λ s, Some s) (λ s, Some (length s)) (js "not-a-jwt") = None
  ∧ decodeJwtPayload (λ s, Some s) (λ s, Some (length s)) (js "a.b!c.d") = None.
Proof.
  destruct (decodeJwtPayload_null (λ s, Some s) (λ s : jsstring, Some (length s)))
    as [Hnodot Hbad].
  split.
  - apply Hnodot. apply (bool_decide_unpack _). by vm_compute.
  - apply (Hbad (js "a") (js "b!c") (js ".d") 0x21%N);
      first [apply (bool_decide_unpack _); by vm_compute|by right|done].
Defined.

(** ** The shape of what is posted *)

Lemma handler_start_shape h s s1 b :
  handler_start h s = Some (s1, b) → well_shaped b.
Proof.
  destruct h; cbn [handler_start].
  - unfold sendMessage_start.
    destruct (trim (chatInput s)) as [|c r] eqn:Ht; [done|].
    destruct (chatLoading s); [done|]. intros [= _ <-].
    left. by eexists.
  - unfold resumeAfterOauthConsent_start.
    destruct (truthy (pendingResponseIdForOauth s)) eqn:Hid; [|done].
    destruct (chatLoading s); [done|]. intros [= _ <-].
    right; left. done.
  - unfold submitApprovals_start, batch_length.
    case_bool_decide as Hlen; [done|].
    destruct (truthy (pendingResponseIdForApproval s)) eqn:Hid; [|done].
    destruct (chatLoading s); [done|]. intros [= _ <-].
    right; right. split_and!; [done..| |done].
    eexists. split; [done|].
    by destruct (default [] (pendingApprovals s)).
Qed.

Lemma step_shapes e c :
  (Forall well_shaped (sent c) ∧ ∀ f, inflight c = Some f → well_shaped (body f)) →
  Forall well_shaped (sent (step e c)) ∧
  ∀ f, inflight (step e c) = Some f → well_shaped (body f).
Proof.
  intros [Hsent Hfl].
  assert (Hcall : ∀ h,
    Forall well_shaped (sent (call h c)) ∧
    ∀ f, inflight (call h c) = Some f → well_shaped (body f)).
  { intros h. unfold call.
    destruct (handler_start h (app c)) as [[s1 b]|] eqn:Hst; [|done].
    split; [done|]. intros f [= <-]. by eapply handler_start_shape. }
  destruct e; cbn [step];
    try (by repeat case_match).
  unfold arrive. destruct (inflight c) as [f|] eqn:Hf; [|by rewrite Hf].
  pose proof (settle_sent (handler f) (closure_token f) env (body f) (app c))
    as Hs.
  destruct (settle (handler f) (closure_token f) env (body f) (app c))
    as [s' reqs]. cbn in *. split; [|done].
  apply Forall_app. split; [done|].
  destruct Hs as [->| ->]; [by constructor|].
  constructor; [by apply Hfl|by constructor].
Qed.

(** X17: every request ever posted has one of three shapes and never a
    mixture: a chat message with a non-empty text and neither action nor
    approvals; or the action [continue] with the identifier to continue
    from and neither message nor approvals; or a non-empty list of
    approvals with the identifier they answer and neither message nor
    action. *)
Theorem posted_requests_well_shaped (es : list Event) :
  Forall well_shaped (sent (play es boot)).
Proof.
  apply (play_invariant
           (λ c, Forall well_shaped (sent c) ∧
                 ∀ f, inflight c = Some f → well_shaped (body f)));
    [apply step_shapes|]. split; [by constructor|done].
Qed.

(** ** [callBackend] *)

Lemma uri_unescaped_not_surrogate c :
  uri_unescaped c = true →
  is_low_surrogate c = false ∧ is_high_surrogate c = false.
Proof.
  intros Hu. assert (c ≤ 0x7E)%N as Hc.
  { unfold uri_unescaped in Hu.
    repeat (apply orb_prop in Hu as [Hu|Hu]).
    1-3: apply andb_prop in Hu as [_ Hu]; apply N.leb_le in Hu; lia.
    apply bool_decide_eq_true in Hu.
    repeat (apply elem_of_cons in Hu as [->|Hu]); try lia.
    by apply elem_of_nil in Hu. }
  unfold is_low_surrogate, is_high_surrogate.
  split; apply andb_false_iff; left; apply N.leb_gt; lia.
Qed.

Lemma encodeURIComponent_well_formed s :
  is_Some (encodeURIComponent s) ↔ well_formed_utf16 s = true.
Proof.
  remember (length s) as n eqn:Hn. revert s Hn.
  induction n as [n IH] using lt_wf_ind.
  intros [|c r] Hn; cbn [encodeURIComponent well_formed_utf16].
  { split; [done|by eexists]. }
  cbn [length] in Hn.
  destruct (uri_unescaped c) eqn:Hu.
  { destruct (uri_unescaped_not_surrogate c Hu) as [-> ->].
    rewrite fmap_is_Some. apply (IH (length r)); [lia|done]. }
  destruct (is_low_surrogate c); [split; [by intros [? ?]|done]|].
  destruct (is_high_surrogate c).
  - destruct r as [|d r']; [split; [by intros [? ?]|done]|].
    cbn [length] in Hn.
    destruct (is_low_surrogate d); cbn [andb]; [|split; [by intros [? ?]|done]].
    rewrite fmap_is_Some. apply (IH (length r')); [lia|done].
  - rewrite fmap_is_Some. apply (IH (length r)); [lia|done].
Qed.

Lemma callBackend_cases malformed env answer p :
  has_account env = true →
  ∃ s1,
    (conversation s1 = conversation (chat p) ∧ chatInput s1 = chatInput (chat p) ∧
     chatLoading s1 = chatLoading (chat p) ∧ agentName s1 = agentName (chat p)) ∧
    if token_resolves (accessToken (chat p)) env then
      ∃ tok, tok ≠ [] ∧
        callBackend malformed env answer p =
          match encodeURIComponent (agentName (chat p)) with
          | None =>
              (MkPanel
                 (setError
                    (Some (error_text (MkJsError (js "URIError") malformed))) s1)
                 false None, [])
          | Some name =>
              (match answer with
               | BackendRejects reason =>
                   MkPanel
                     (setError
                        (Some (error_text (MkJsError (js "TypeError") reason))) s1)
                     false None
               | BackendNotOk code d e =>
                   MkPanel
                     (setError
                        (Some (error_text
                                 (new_Error
                                    (or_else d
                                       (or_else e (backend_error_text code))))))
                        s1)
                     false None
               | BackendOk data => MkPanel s1 false data
               end, [MkBackendRequest (js "/agents/" ++ name) (js "Bearer " ++ tok)])
          end
    else callBackend malformed env answer p = (MkPanel s1 false None, []).
Proof.
  intros Hacc. unfold callBackend, token_resolves. rewrite Hacc.
  cbn [negb andb].
  destruct (accessToken (chat p)) as [[|c r]|] eqn:Htok; cbn [truthy orb].
  2:{ exists (setError None (chat p)). split; [done|].
      exists (c :: r). split; [done|].
      by destruct (encodeURIComponent (agentName (chat p))), answer. }
  all: pose proof (tryGetTokenSilent_frame env (setError None (chat p)))
         as (_ & _ & Hl & Hconv & Hin & Hag);
       pose proof (tryGetTokenSilent_truthy env (setError None (chat p))) as Ht;
       rewrite Hacc in Ht; cbn [andb] in Ht;
       destruct (tryGetTokenSilent env (setError None (chat p))) as [s1 token];
       cbn [fst snd] in *; exists s1; (split; [done|]); rewrite <- Ht;
       destruct token as [[|c r]|]; cbn [truthy]; try done;
       exists (c :: r); (split; [done|]);
       by destruct (encodeURIComponent (agentName (chat p))), answer.
Qed.

(** X18: what [callBackend] leaves behind. Without an account it does
    nothing. Otherwise the spinner flag is cleared at the end whatever
    happened, the conversation, the chat input and [chatLoading] are
    untouched, and the result cell holds the fresh answer or nothing,
    never the previous result: it holds data exactly when a token was at
    hand, the agent name is well-formed UTF-16 and the backend answered
    [ok] with a body that is not [null]. Without a token [fetch] is not
    called. With a token and an agent name that holds a lone surrogate
    [fetch] is not called either, and [error] shows the [URIError] of
    [encodeURIComponent]. With a token and a well-formed agent name
    [fetch] is called exactly once, for [/agents/] followed by the
    encoded agent name of the render, with a non-empty bearer token. *)
Theorem callBackend_outcome (malformed : jsstring) (env : Env)
    (answer : BackendFetch) (p : Panel) :
  let out := callBackend malformed env answer p in
  let at_hand := token_resolves (accessToken (chat p)) env in
  let well_formed := well_formed_utf16 (agentName (chat p)) in
  (has_account env = false → out = (p, [])) ∧
  (has_account env = true →
   backendLoading out.1 = false ∧
   conversation (chat out.1) = conversation (chat p) ∧
   chatInput (chat out.1) = chatInput (chat p) ∧
   chatLoading (chat out.1) = chatLoading (chat p) ∧
   agentName (chat out.1) = agentName (chat p) ∧
   (∀ data, backendResult out.1 = Some data ↔
            at_hand = true ∧ well_formed = true ∧ answer = BackendOk (Some data)) ∧
   (at_hand = false → out.2 = []) ∧
   (at_hand = true → well_formed = false →
    out.2 = [] ∧
    error (chat out.1)
    = Some (error_text (MkJsError (js "URIError") malformed))) ∧
   (at_hand = true → well_formed = true →
    ∃ tok name,
      tok ≠ [] ∧ encodeURIComponent (agentName (chat p)) = Some name ∧
      out.2 = [MkBackendRequest (js "/agents/" ++ name) (js "Bearer " ++ tok)])).
Proof.
  cbn zeta. split.
  { intros Hacc. unfold callBackend. by rewrite Hacc. }
  intros Hacc.
  destruct (callBackend_cases malformed env answer p Hacc) as (s1 & Hframe & Hcase).
  destruct Hframe as (Hconv & Hin & Hl & Hag).
  pose proof (encodeURIComponent_well_formed (agentName (chat p))) as Hwf.
  destruct (token_resolves (accessToken (chat p)) env).
  - destruct Hcase as (tok & Htok & ->).
    destruct (encodeURIComponent (agentName (chat p))) as [name|] eqn:Henc.
    + rewrite (proj1 Hwf) by by eexists. cbn [fst snd].
      split_and!; try (by destruct answer).
      * intros data. destruct answer as [reason|code d e|[body|]]; cbn; split;
          first [done|by intros [= ->]|by intros (_ & _ & [= ->])
                |by intros (_ & _ & ?)].
      * intros _ _. by exists tok, name.
    + destruct (well_formed_utf16 (agentName (chat p))).
      { by destruct (proj2 Hwf eq_refl). }
      cbn [fst snd]. split_and!; try done.
      intros data. cbn. split; [done|by intros (_ & ? & _)].
  - rewrite Hcase. cbn [fst snd]. split_and!; try done.
    intros data. cbn. split; [done|by intros [? _]].
Qed.

Lemma callBackend_outcome_witness :
  (callBackend (js "URI malformed")
     (MkEnv true (Acquired (js "eyJ0")) (FetchRejects []))
     (BackendOk (Some (js "{}")))
     (MkPanel (setAgentName [0xD800%N] initial) false (Some (js "{}")))).2 = []
  ∧ error
      (chat (callBackend (js "URI malformed")
               (MkEnv true (Acquired (js "eyJ0")) (FetchRejects []))
               (BackendOk (Some (js "{}")))
               (MkPanel (setAgentName [0xD800%N] initial) false
                  (Some (js "{}")))).1)
    = Some (js "URI malformed").
Proof.
  destruct (callBackend_outcome (js "URI malformed")
              (MkEnv true (Acquired (js "eyJ0")) (FetchRejects []))
              (BackendOk (Some (js "{}")))
              (MkPanel (setAgentName [0xD800%N] initial) false (Some (js "{}"))))
    as [_ Hout].
  destruct (Hout eq_refl) as (_ & _ & _ & _ & _ & _ & _ & Hbad & _).
  destruct (Hbad eq_refl eq_refl) as [Hcalls Herr].
  split; [exact Hcalls|exact Herr].
Defined.

(** ** Ticking and submitting *)

Lemma tick_loop_lookup (ticked : list jsstring) (s : AppState) (k : jsstring) :
  approvalDecisions (foldl (λ s rid, onApprovalChange rid true s) s ticked) !! k
  = if decide (k ∈ ticked) then Some true else approvalDecisions s !! k.
Proof.
  revert s. induction ticked as [|rid ticked IH]; intros s; cbn [foldl].
  { rewrite decide_False; [done|apply not_elem_of_nil]. }
  rewrite IH. destruct (decide (k ∈ ticked)) as [Hin|Hin].
  - rewrite decide_True; [done|by apply list_elem_of_further].
  - cbn. rewrite lookup_insert. destruct (decide (rid = k)) as [->|Hne].
    + rewrite decide_True; [done|apply list_elem_of_here].
    + rewrite decide_False; [done|]. rewrite elem_of_cons. by intros [->|?].
Qed.

Lemma tick_loop_frame (ticked : list jsstring) (s : AppState) :
  let s2 := foldl (λ s rid, onApprovalChange rid true s) s ticked in
  pendingApprovals s2 = pendingApprovals s ∧
  pendingResponseIdForApproval s2 = pendingResponseIdForApproval s ∧
  chatLoading s2 = chatLoading s.
Proof.
  revert s. induction ticked as [|rid ticked IH]; intros s; cbn; [done|].
  by destruct (IH (onApprovalChange rid true s)) as (-> & -> & ->).
Qed.

(** X19: the ticked requests are approved, the others denied. A batch
    arrives, the user ticks some of its checkboxes and submits: the
    posted entry of a request says [approve: true] if its checkbox was
    ticked and [approve: false] otherwise. The one exception is a
    request whose id is [__proto__]: the default [false] never reaches
    the decision object, so its entry says [approve: true] although its
    checkbox was not ticked. *)
Theorem ticked_are_approved (data : ChatResponse) (s : AppState)
    (ticked : list jsstring) (s3 : AppState) (b : ChatRequest) :
  status data = Some approval_required →
  let s1 := applyChatResponse data s in
  let s2 := foldl (λ s rid, onApprovalChange rid true s) s1 ticked in
  submitApprovals_start s2 = Some (s3, b) →
  approvals b
  = Some ((λ r, MkApprovalEntry (id r)
                  (bool_decide (id r ∈ ticked ∨ id r = js "__proto__")))
          <$> default [] (approval_requests data)).
Proof.
  intros Hs s1 s2 Hst.
  assert (Hc : status data ≠ Some oauth_consent_required).
  { rewrite Hs. intros Heq. destruct statuses_differ. congruence. }
  assert (Hs1 : pendingApprovals s1 = Some (default [] (approval_requests data)) ∧
                approvalDecisions s1
                = deny_by_default (default [] (approval_requests data))).
  { subst s1. unfold applyChatResponse, requests_of.
    by rewrite decide_False, decide_True. }
  destruct Hs1 as [Hpa Hd].
  destruct (tick_loop_frame ticked s1) as (Hpa2 & _). fold s2 in Hpa2.
  unfold submitApprovals_start in Hst. case_match; [done|].
  injection Hst as _ <-.
  change (Some ((λ r, MkApprovalEntry (id r) (decision (approvalDecisions s2) (id r)))
                <$> default [] (pendingApprovals s2))
          = Some ((λ r, MkApprovalEntry (id r)
                          (bool_decide (id r ∈ ticked ∨ id r = js "__proto__")))
                  <$> default [] (approval_requests data))).
  rewrite Hpa2, Hpa. f_equal.
  apply Forall_fmap_ext_1, Forall_forall. intros r Hr. f_equal.
  unfold decision, obj_truthy. subst s2. rewrite tick_loop_lookup, Hd.
  destruct (decide (id r ∈ ticked)) as [Hin|Hin].
  { rewrite bool_decide_eq_true_2; [done|by left]. }
  destruct (decide (id r = js "__proto__")) as [Hp|Hp].
  - rewrite (bool_decide_eq_true_2 (id r ∈ ticked ∨ id r = js "__proto__"))
      by by right.
    destruct (deny_by_default (default [] (approval_requests data)) !! id r)
      eqn:Hl; [|rewrite Hp; by vm_compute].
    assert (is_Some (deny_by_default (default [] (approval_requests data)) !! id r))
      as [_ ?]%deny_by_default_keys by by eexists.
    done.
  - rewrite (deny_by_default_lookup _ r Hr Hp).
    rewrite (bool_decide_eq_false_2 (id r ∈ ticked ∨ id r = js "__proto__"));
      [done|]. by intros [?|?].
Qed.

Lemma ticked_are_approved_witness :
  ∃ s3 b,
    submitApprovals_start
      (onApprovalChange (js "apr_1") true
         (applyChatResponse Scenario.approval_batch initial)) = Some (s3, b) ∧
    approvals b = Some [MkApprovalEntry (js "apr_1") true].
Proof.
  eexists _, _. split; [reflexivity|].
  eapply (ticked_are_approved Scenario.approval_batch initial [js "apr_1"]);
    reflexivity.
Defined.
